(** * Motionlize: the frame-indexed evaluation engine

    A shallow embedding of the rendering core of the repository:

    - [types.ts]: the scene, diagram and action records;
    - [components/RemotionVideo/Composition.tsx]: [MainComposition], which lays
      the scenes out on the timeline;
    - [components/RemotionVideo/Scene.tsx]: [Scene], the standard layout and
      the dispatch to the diagram renderer;
    - the two [TechScene] sources of the repository: the flat one (second
      half of [Composition.tsx]) and the tilted-stage one ([unnamed/part_000]);
    - [services/geminiService.ts] and [unnamed/part_001]: the two
      post-processing passes over generated scenes;
    - [App.tsx]: the Redis-lock configuration [INITIAL_DATA] and the
      [Player] that hosts the composition.

    Numbers.  Frame counts ([startDelay], [duration], [durationInFrames], the
    current frame) are integers, [Z].  Every other JavaScript number
    (coordinates, canvas size, progress, scale, opacity) is taken as a real
    number, [R]: arithmetic is exact, without rounding.  The one place where
    the source can produce a NaN, a packet of duration 0, is written out with
    [option].

    A React component returning [null] is [None]; [array.map] keeps one entry
    per element, so a callback returning [null] leaves [None] at that index.
    An error raised during a render is a result of its own, [Throws]. *)

From Stdlib Require Import ZArith List String Bool Reals Lra Lia.
From Stdlib Require Import Ascii.
Import ListNotations.

Local Open Scope string_scope.
Local Open Scope Z_scope.

(** ** JavaScript helpers *)

(** [s || d] on an optional string: [undefined] and the empty string are falsy. *)
Definition str_or (s : option string) (d : string) : string :=
  match s with
  | Some v => if String.eqb v "" then d else v
  | None => d
  end.

(** Truthiness of an optional string, as tested by [!action.fromId] or
    [edge.label && ...]. *)
Definition truthy (s : option string) : bool :=
  match s with
  | Some v => negb (String.eqb v "")
  | None => false
  end.

(** [a || []] on an optional array. *)
Definition arr_or {A : Type} (a : option (list A)) : list A :=
  match a with
  | Some l => l
  | None => []
  end.

(** [x === s] where [x] may be [undefined] and [s] is a string. *)
Definition opt_eqb (x : option string) (s : string) : bool :=
  match x with
  | Some v => String.eqb v s
  | None => false
  end.

(** [array.map((element, i) => ...)]: the callback sees the element and its
    index, counted from [i]. *)
Fixpoint mapi_from {A B : Type} (f : A -> Z -> B) (i : Z) (l : list A) : list B :=
  match l with
  | [] => []
  | a :: l' => f a i :: mapi_from f (i + 1) l'
  end.

Definition mapi {A B : Type} (f : A -> Z -> B) (l : list A) : list B :=
  mapi_from f 0 l.

(** ** types.ts *)

Inductive SceneType : Type :=
| intro | bullet_point | quote | outro | tech_diagram.

(** [NodeType] of types.ts, with the three further tags the generation schema
    and the icon table of the tilted-stage renderer know. *)
Inductive NodeType : Type :=
| database | server | client | code | lock | queue | cloud | firewall.

Module DiagramNode.
Record t : Type := mk {
  id : string;
  type : NodeType;
  label : string;
  x : R;
  y : R;
  color : option string
}.
End DiagramNode.

Module DiagramEdge.
Record t : Type := mk {
  fromId : string;
  toId : string;
  label : option string;
  color : option string
}.
End DiagramEdge.

Inductive ActionType : Type :=
| packet | highlight | show_label | pulse.

Module DiagramAction.
Record t : Type := mk {
  type : ActionType;
  startDelay : Z;
  duration : Z;
  fromId : option string;
  toId : option string;
  targetId : option string;
  label : option string;
  color : option string
}.
End DiagramAction.

(** The three arrays are declared mandatory in types.ts, but both renderers
    and both post-processing passes guard against their absence, so they are
    optional here. *)
Module DiagramConfig.
Record t : Type := mk {
  nodes : option (list DiagramNode.t);
  edges : option (list DiagramEdge.t);
  actions : option (list DiagramAction.t)
}.
End DiagramConfig.

Module SceneData.
Record t : Type := mk {
  title : string;
  subtitle : string;
  backgroundColor : string;
  textColor : string;
  durationInFrames : Z;
  type : SceneType;
  diagramConfig : option DiagramConfig.t
}.
End SceneData.

Module VideoConfig.
Record t : Type := mk {
  topic : string;
  musicMood : string;
  totalDuration : Z;
  scenes : option (list SceneData.t);
  width : R;
  height : R;
  fps : R
}.
End VideoConfig.

Definition actionType_eqb (a b : ActionType) : bool :=
  match a, b with
  | packet, packet | highlight, highlight
  | show_label, show_label | pulse, pulse => true
  | _, _ => false
  end.

Definition sceneType_eqb (a b : SceneType) : bool :=
  match a, b with
  | intro, intro | bullet_point, bullet_point | quote, quote
  | outro, outro | tech_diagram, tech_diagram => true
  | _, _ => false
  end.

Definition nodeType_eqb (a b : NodeType) : bool :=
  match a, b with
  | database, database | server, server | client, client | code, code
  | lock, lock | queue, queue | cloud, cloud | firewall, firewall => true
  | _, _ => false
  end.

(** ** The host library (remotion): hooks, interpolate, spring, Sequence *)

(** What [useVideoConfig()] hands to a component.  The renderers read
    [width], [height] and [fps] only. *)
Module Canvas.
Record t : Type := mk {
  width : R;
  height : R;
  fps : R;
  durationInFrames : Z
}.
End Canvas.

(** The ambient context of a render call: [useCurrentFrame()] and
    [useVideoConfig()]. *)
Module Hooks.
Record t : Type := mk {
  useCurrentFrame : Z;
  useVideoConfig : Canvas.t
}.
End Hooks.

Local Open Scope R_scope.

(** Modelled from the spec: [interpolate] of the host library is not under
    src/.  With the input range [[0, 1]] it is the spec's
    [lerp(progress, [outMin, outMax])], a linear interpolation that is not
    clamped. *)
Definition lerp (progress outMin outMax : R) : R :=
  outMin + progress * (outMax - outMin).

(** Linear map of [input] from [[i0, i1]] onto [[o0, o1]]. *)
Definition lerp_range (input i0 i1 o0 o1 : R) : R :=
  lerp ((input - i0) / (i1 - i0)) o0 o1.

Fixpoint strictly_increasing (l : list R) : bool :=
  match l with
  | a :: ((b :: _) as l') =>
      if Rlt_dec a b then strictly_increasing l' else false
  | _ => true
  end.

(** The segment of a piecewise-linear map that [input] falls in: the first
    one whose right end is not below [input], the last one otherwise; the
    first and the last segment extend beyond the range. *)
Fixpoint interpolate_from (input i0 o0 : R) (rest : list (R * R)) : R :=
  match rest with
  | [] => o0
  | [(i1, o1)] => lerp_range input i0 i1 o0 o1
  | (i1, o1) :: (_ :: _) as rest' =>
      if Rle_dec input i1 then lerp_range input i0 i1 o0 o1
      else interpolate_from input i1 o1 rest'
  end.

(** Modelled from the spec: [interpolate] of the host library over several
    breakpoints (the trapezoid of the scene opacity).  The spec gives it a
    value for increasing breakpoints; any other input range is rejected
    ([None]): the call raises an error and the render of the caller fails. *)
Definition interpolate (input : R) (inputRange outputRange : list R) : option R :=
  if negb (Nat.eqb (List.length inputRange) (List.length outputRange)) then None
  else if negb (strictly_increasing inputRange) then None
  else
    match combine inputRange outputRange with
    | (i0, o0) :: ((_ :: _) as rest) => Some (interpolate_from input i0 o0 rest)
    | _ => None
    end.

(** [Math.min(Math.max(p, 0), 1)]. *)
Definition clamp01 (p : R) : R := Rmin (Rmax p 0) 1.

(** [interpolate(progress, [0, 1], [a, b])] for a progress that may be NaN
    ([None]): when both ends of the output range are equal the result is that
    end whatever the input is; otherwise NaN goes through the arithmetic. *)
Definition interpolateUnit (progress : option R) (a b : R) : option R :=
  match progress with
  | Some p => Some (lerp p a b)
  | None => if Req_dec_T a b then Some a else None
  end.

(** The [config] argument of [spring]: every field is optional. *)
Module SpringConfig.
Record t : Type := mk {
  stiffness : option R;
  damping : option R;
  mass : option R
}.
End SpringConfig.

Definition num_or (o : option R) (d : R) : R :=
  match o with
  | Some v => v
  | None => d
  end.

(** Modelled from the spec: the defaults of the host library's spring
    parameters are not under src/; they are the library's documented ones
    (stiffness 100, damping 10, mass 1), which make [damping: 200] the
    over-damped parameterization the spec speaks of. *)
Definition defaultStiffness : R := 100.
Definition defaultDamping : R := 10.
Definition defaultMass : R := 1.

(** State of the oscillator: progress and its rate of change. *)
Module Oscillator.
Record t : Type := mk {
  position : R;
  velocity : R
}.
End Oscillator.

(** Released from rest at progress 0. *)
Definition at_rest : Oscillator.t := Oscillator.mk 0 0.

(** Damping ratio and undamped angular frequency of the oscillator
    [m x'' + c x' + k (x - 1) = 0]. *)
Definition dampingRatio (k c m : R) : R := c / (2 * sqrt (k * m)).
Definition omega0 (k m : R) : R := sqrt (k / m).

(** Displacement from the target 1, and its rate of change. *)
Definition displacement (s : Oscillator.t) : R := 1 - Oscillator.position s.
Definition slope (s : Oscillator.t) : R := - Oscillator.velocity s.

(** The state with displacement [u] and slope [w]. *)
Definition displaced (u w : R) : Oscillator.t := Oscillator.mk (1 - u) (- w).

(** Modelled from the spec: the damped harmonic oscillator of the host
    library's [spring], under-damped case.  Motion over a time [h]: an
    oscillation of angular frequency [w1] under the envelope [exp (- a * h)]. *)
Definition stepUnderDamped (zeta w0 h : R) (s : Oscillator.t) : Oscillator.t :=
  let a := zeta * w0 in
  let w1 := w0 * sqrt (1 - zeta * zeta) in
  let u := displacement s in
  let w := slope s in
  let b := (w + a * u) / w1 in
  let env := exp (- a * h) in
  displaced
    (env * (u * cos (w1 * h) + b * sin (w1 * h)))
    (env * ((b * w1 - a * u) * cos (w1 * h) - (a * b + u * w1) * sin (w1 * h))).

(** Modelled from the spec: the same oscillator, critically damped, over a
    time [h]. *)
Definition stepCritical (w0 h : R) (s : Oscillator.t) : Oscillator.t :=
  let u := displacement s in
  let w := slope s in
  let env := exp (- w0 * h) in
  displaced
    (env * (u + (w + w0 * u) * h))
    (env * (w - w0 * (w + w0 * u) * h)).

(** The two decay rates of over-damped motion, and the parts of the
    displacement that decay at each. *)
Definition slowRate (zeta w0 : R) : R :=
  - (zeta * w0) + w0 * sqrt (zeta * zeta - 1).
Definition fastRate (zeta w0 : R) : R :=
  - (zeta * w0) - w0 * sqrt (zeta * zeta - 1).

Definition slowPart (zeta w0 : R) (s : Oscillator.t) : R :=
  (slope s - fastRate zeta w0 * displacement s)
  / (2 * (w0 * sqrt (zeta * zeta - 1))).

Definition fastPart (zeta w0 : R) (s : Oscillator.t) : R :=
  (slowRate zeta w0 * displacement s - slope s)
  / (2 * (w0 * sqrt (zeta * zeta - 1))).

(** Modelled from the spec: the same oscillator, over-damped, over a time
    [h]: two decaying exponentials. *)
Definition stepOverDamped (zeta w0 h : R) (s : Oscillator.t) : Oscillator.t :=
  let r1 := slowRate zeta w0 in
  let r2 := fastRate zeta w0 in
  let A := slowPart zeta w0 s in
  let B := fastPart zeta w0 s in
  displaced
    (A * exp (r1 * h) + B * exp (r2 * h))
    (r1 * A * exp (r1 * h) + r2 * B * exp (r2 * h)).

(** Modelled from the spec: one physical time step [h] of the damped harmonic
    oscillator with target 1, by the solution of its equation of motion
    [m x'' + c x' + k (x - 1) = 0] from the current state. *)
Definition advance (k c m h : R) (s : Oscillator.t) : Oscillator.t :=
  let zeta := dampingRatio k c m in
  let w0 := omega0 k m in
  if Rlt_dec zeta 1 then stepUnderDamped zeta w0 h s
  else if Rle_dec zeta 1 then stepCritical w0 h s
  else stepOverDamped zeta w0 h s.

(** [n] steps from rest. *)
Fixpoint oscillate (k c m h : R) (n : nat) : Oscillator.t :=
  match n with
  | O => at_rest
  | S n' => advance k c m h (oscillate k c m h n')
  end.

(** Modelled from the spec: [spring] of the host library is not under src/.
    A damped harmonic oscillator released from rest at progress 0 with target
    1, advanced in time steps of [1 / fps]; for [frame <= 0] no step is taken. *)
Definition spring_at (frame : Z) (fps : R) (k c m : R) : R :=
  Oscillator.position (oscillate k c m (1 / fps) (Z.to_nat frame)).

(** [spring({frame, fps, config})]: the parameters that [config] leaves out
    take their defaults. *)
Definition spring (frame : Z) (fps : R) (config : SpringConfig.t) : R :=
  spring_at frame fps
    (num_or (SpringConfig.stiffness config) defaultStiffness)
    (num_or (SpringConfig.damping config) defaultDamping)
    (num_or (SpringConfig.mass config) defaultMass).

Local Close Scope R_scope.
Local Open Scope Z_scope.

(** Modelled from the spec: [Sequence] of the host library is not under src/.
    A sequence placed at [from] for [durationInFrames] frames occupies the
    half-open interval [[from, from + durationInFrames)]; inside it the
    children see the local frame [frame - from], outside it nothing is
    mounted. *)
Definition sequenceFrame (from durationInFrames frame : Z) : option Z :=
  if (from <=? frame) && (frame <? from + durationInFrames)
  then Some (frame - from)
  else None.

Definition Sequence {A : Type} (from durationInFrames : Z)
    (children : Hooks.t -> A) (env : Hooks.t) : option A :=
  option_map
    (fun localFrame => children (Hooks.mk localFrame (Hooks.useVideoConfig env)))
    (sequenceFrame from durationInFrames (Hooks.useCurrentFrame env)).

(** ** Helpers shared by the two diagram renderers *)

(** [toPx]: a percentage coordinate mapped to pixels. *)
Definition toPx (pct dim : R) : R := (pct / 100 * dim)%R.

(** [Math.min(width, height) * 0.06]. *)
Definition baseSize (width height : R) : R := (Rmin width height * 0.06)%R.

(** [nodes.find(n => n.id === ref)]: the first node carrying the id. *)
Definition findNode (nodes : list DiagramNode.t) (ref : option string)
  : option DiagramNode.t :=
  find (fun n => opt_eqb ref (DiagramNode.id n)) nodes.

(** [Math.min(Math.max((frame - startDelay) / duration, 0), 1)].  A zero
    [duration] divides by zero: [0 / 0] is NaN and stays NaN through the
    clamp ([None]); a non-zero numerator gives an infinity that the clamp
    brings to 0 or 1. *)
Definition packetProgress (frame startDelay duration : Z) : option R :=
  if duration =? 0 then
    if frame - startDelay =? 0 then None
    else if 0 <? frame - startDelay then Some 1%R else Some 0%R
  else Some (clamp01 (IZR (frame - startDelay) / IZR duration)).

(** The test both renderers apply to an action inside [actions.find]:
    the frame lies in [[startDelay, startDelay + duration)]. *)
Definition inWindow (frame : Z) (a : DiagramAction.t) : bool :=
  (DiagramAction.startDelay a <=? frame)
  && (frame <? DiagramAction.startDelay a + DiagramAction.duration a).

(** ** The flat diagram renderer: [TechScene] of Composition.tsx *)

Module Flat.

Module Edge.
Record t : Type := mk {
  x1 : R; y1 : R; x2 : R; y2 : R;
  opacity : R;
  stroke : string;
  label : option string
}.
End Edge.

Module Node.
Record t : Type := mk {
  key : string;
  left : R;
  top : R;
  scale : R;
  highlighted : bool;
  nodeColor : string;
  type : NodeType;
  label : string
}.
End Node.

Module Effect.
Inductive t : Type :=
| Packet (left top : option R) (packetColor text : string)
| Label (left top scale : R) (backgroundColor : string) (text : option string).
End Effect.

Module Render.
Record t : Type := mk {
  backgroundColor : string;
  textColor : string;
  title : string;
  subtitle : string;
  edges : list (option Edge.t);
  nodes : list Node.t;
  effects : list (option Effect.t)
}.
End Render.

(** [actions.find(a => a.type === 'highlight' && a.targetId === node.id &&
    frame >= a.startDelay && frame < a.startDelay + a.duration)]. *)
Definition activeHighlight (actions : list DiagramAction.t)
    (node : DiagramNode.t) (frame : Z) : option DiagramAction.t :=
  find (fun a =>
          actionType_eqb (DiagramAction.type a) highlight
          && opt_eqb (DiagramAction.targetId a) (DiagramNode.id node)
          && inWindow frame a) actions.

Definition renderEdge (data : SceneData.t) (nodes : list DiagramNode.t)
    (frame : Z) (width height fps : R) (edge : DiagramEdge.t) (i : Z)
  : option Edge.t :=
  match findNode nodes (Some (DiagramEdge.fromId edge)),
        findNode nodes (Some (DiagramEdge.toId edge)) with
  | Some from, Some to =>
      let lineProgress :=
        spring (frame - i * 5) fps
          (SpringConfig.mk None (Some 200%R) None) in
      Some (Edge.mk
              (toPx (DiagramNode.x from) width)
              (toPx (DiagramNode.y from) height)
              (toPx (DiagramNode.x to) width)
              (toPx (DiagramNode.y to) height)
              (lerp lineProgress 0 0.5)
              (str_or (DiagramEdge.color edge) (SceneData.textColor data))
              (if truthy (DiagramEdge.label edge)
               then DiagramEdge.label edge else None))
  | _, _ => None
  end.

Definition renderNode (data : SceneData.t) (actions : list DiagramAction.t)
    (frame : Z) (width height fps : R) (node : DiagramNode.t) (i : Z)
  : Node.t :=
  let scale :=
    spring (frame - i * 10) fps
      (SpringConfig.mk (Some 200%R) (Some 15%R) None) in
  let active := activeHighlight actions node frame in
  let highlightScale :=
    match active with Some _ => 1.2%R | None => 1.0%R end in
  let finalScale := (lerp scale 0 1 * highlightScale)%R in
  Node.mk (DiagramNode.id node)
          (toPx (DiagramNode.x node) width)
          (toPx (DiagramNode.y node) height)
          finalScale
          (match active with Some _ => true | None => false end)
          (str_or (DiagramNode.color node) (SceneData.textColor data))
          (DiagramNode.type node)
          (DiagramNode.label node).

Definition renderAction (nodes : list DiagramNode.t)
    (frame : Z) (width height fps : R) (action : DiagramAction.t) (i : Z)
  : option Effect.t :=
  let startDelay := DiagramAction.startDelay action in
  let duration := DiagramAction.duration action in
  let type := DiagramAction.type action in
  if frame <? startDelay then None
  else if (startDelay + duration <? frame) && actionType_eqb type packet
  then None
  else if actionType_eqb type packet
          && truthy (DiagramAction.fromId action)
          && truthy (DiagramAction.toId action)
  then
    match findNode nodes (DiagramAction.fromId action),
          findNode nodes (DiagramAction.toId action) with
    | Some from, Some to =>
        let progress := packetProgress frame startDelay duration in
        let startX := toPx (DiagramNode.x from) width in
        let startY := toPx (DiagramNode.y from) height in
        let endX := toPx (DiagramNode.x to) width in
        let endY := toPx (DiagramNode.y to) height in
        Some (Effect.Packet
                (interpolateUnit progress startX endX)
                (interpolateUnit progress startY endY)
                (str_or (DiagramAction.color action) "#ffffff")
                (str_or (DiagramAction.label action) "DATA"))
    | _, _ => None
    end
  else if actionType_eqb type show_label
          && truthy (DiagramAction.targetId action)
  then
    match findNode nodes (DiagramAction.targetId action) with
    | Some target =>
        let tx := toPx (DiagramNode.x target) width in
        let ty := toPx (DiagramNode.y target) height in
        let labelPop :=
          spring (frame - startDelay) fps
            (SpringConfig.mk (Some 150%R) None None) in
        Some (Effect.Label
                (tx + baseSize width height)%R
                (ty - baseSize width height)%R
                labelPop
                (str_or (DiagramAction.color action) "#10B981")
                (DiagramAction.label action))
    | None => None
    end
  else None.

Definition TechScene (data : SceneData.t) (env : Hooks.t) : option Render.t :=
  let frame := Hooks.useCurrentFrame env in
  let width := Canvas.width (Hooks.useVideoConfig env) in
  let height := Canvas.height (Hooks.useVideoConfig env) in
  let fps := Canvas.fps (Hooks.useVideoConfig env) in
  match SceneData.diagramConfig data with
  | None => None
  | Some config =>
      let nodes := arr_or (DiagramConfig.nodes config) in
      let edges := arr_or (DiagramConfig.edges config) in
      let actions := arr_or (DiagramConfig.actions config) in
      Some (Render.mk
              (SceneData.backgroundColor data)
              (SceneData.textColor data)
              (SceneData.title data)
              (SceneData.subtitle data)
              (mapi (renderEdge data nodes frame width height fps) edges)
              (mapi (renderNode data actions frame width height fps) nodes)
              (mapi (renderAction nodes frame width height fps) actions))
  end.

End Flat.

(** ** The tilted-stage diagram renderer: [TechScene] of unnamed/part_000 *)

Module Stage.

Module Edge.
Record t : Type := mk {
  x1 : R; y1 : R; x2 : R; y2 : R;
  opacity : R;
  stroke : string;
  label : option string
}.
End Edge.

Module Node.
Record t : Type := mk {
  key : string;
  left : R;
  top : R;
  scale : R;
  highlighted : bool;
  nodeColor : string;
  type : NodeType
}.
End Node.

Module Packet.
Record t : Type := mk {
  left : option R;
  top : option R;
  packetColor : string;
  label : option string
}.
End Packet.

Module Popup.
Record t : Type := mk {
  left : R;
  top : R;
  scale : R;
  background : string;
  text : option string
}.
End Popup.

Module Render.
Record t : Type := mk {
  backgroundColor : string;
  textColor : string;
  title : string;
  subtitle : string;
  gridOffset : Z;
  edges : list (option Edge.t);
  nodes : list Node.t;
  packets : list (option Packet.t);
  popups : list (option Popup.t)
}.
End Render.

(** [actions.find(a => (a.type === 'highlight' || a.type === 'pulse') &&
    a.targetId === node.id && frame >= a.startDelay &&
    frame < a.startDelay + a.duration)]. *)
Definition activeAction (actions : list DiagramAction.t)
    (node : DiagramNode.t) (frame : Z) : option DiagramAction.t :=
  find (fun a =>
          (actionType_eqb (DiagramAction.type a) highlight
           || actionType_eqb (DiagramAction.type a) pulse)
          && opt_eqb (DiagramAction.targetId a) (DiagramNode.id node)
          && inWindow frame a) actions.

Definition renderEdge (data : SceneData.t) (nodes : list DiagramNode.t)
    (frame : Z) (width height fps : R) (edge : DiagramEdge.t) (i : Z)
  : option Edge.t :=
  match findNode nodes (Some (DiagramEdge.fromId edge)),
        findNode nodes (Some (DiagramEdge.toId edge)) with
  | Some from, Some to =>
      let progress :=
        spring (frame - i * 3) fps
          (SpringConfig.mk (Some 50%R) None None) in
      Some (Edge.mk
              (toPx (DiagramNode.x from) width)
              (toPx (DiagramNode.y from) height)
              (toPx (DiagramNode.x to) width)
              (toPx (DiagramNode.y to) height)
              (lerp progress 0 0.4)
              (str_or (DiagramEdge.color edge) (SceneData.textColor data))
              (if truthy (DiagramEdge.label edge)
               then DiagramEdge.label edge else None))
  | _, _ => None
  end.

(** [isPulse ? Math.sin((frame - activeAction.startDelay) * 0.5) * 0.1 : 0]. *)
Definition pulseScale (active : option DiagramAction.t) (frame : Z) : R :=
  match active with
  | Some a =>
      if actionType_eqb (DiagramAction.type a) pulse
      then (sin (IZR (frame - DiagramAction.startDelay a) * 0.5) * 0.1)%R
      else 0%R
  | None => 0%R
  end.

Definition renderNode (actions : list DiagramAction.t)
    (frame : Z) (width height fps : R) (node : DiagramNode.t) (i : Z)
  : Node.t :=
  let entrance :=
    spring (frame - i * 5) fps
      (SpringConfig.mk (Some 100%R) (Some 12%R) None) in
  let active := activeAction actions node frame in
  let scaleVal :=
    (lerp entrance 0 1
     + (match active with Some _ => 0.15 | None => 0 end)
     + pulseScale active frame)%R in
  Node.mk (DiagramNode.id node)
          (toPx (DiagramNode.x node) width)
          (toPx (DiagramNode.y node) height)
          scaleVal
          (match active with Some _ => true | None => false end)
          (str_or (DiagramNode.color node) "#3b82f6")
          (DiagramNode.type node).

Definition renderPacket (nodes : list DiagramNode.t)
    (frame : Z) (width height : R) (action : DiagramAction.t) (i : Z)
  : option Packet.t :=
  let startDelay := DiagramAction.startDelay action in
  let duration := DiagramAction.duration action in
  if negb (actionType_eqb (DiagramAction.type action) packet)
     || negb (truthy (DiagramAction.fromId action))
     || negb (truthy (DiagramAction.toId action))
  then None
  else if frame <? startDelay then None
  else if startDelay + duration <? frame then None
  else
    match findNode nodes (DiagramAction.fromId action),
          findNode nodes (DiagramAction.toId action) with
    | Some from, Some to =>
        let progress := packetProgress frame startDelay duration in
        let startX := toPx (DiagramNode.x from) width in
        let startY := toPx (DiagramNode.y from) height in
        let endX := toPx (DiagramNode.x to) width in
        let endY := toPx (DiagramNode.y to) height in
        Some (Packet.mk
                (interpolateUnit progress startX endX)
                (interpolateUnit progress startY endY)
                (str_or (DiagramAction.color action) "#fff")
                (if truthy (DiagramAction.label action)
                 then DiagramAction.label action else None))
    | _, _ => None
    end.

Definition renderPopup (nodes : list DiagramNode.t)
    (frame : Z) (width height fps : R) (action : DiagramAction.t) (i : Z)
  : option Popup.t :=
  let startDelay := DiagramAction.startDelay action in
  if negb (actionType_eqb (DiagramAction.type action) show_label)
     || negb (truthy (DiagramAction.targetId action))
  then None
  else if frame <? startDelay then None
  else
    match findNode nodes (DiagramAction.targetId action) with
    | Some target =>
        let pop :=
          spring (frame - startDelay) fps
            (SpringConfig.mk (Some 200%R) None None) in
        let tx := toPx (DiagramNode.x target) width in
        let ty := toPx (DiagramNode.y target) height in
        Some (Popup.mk tx (ty - baseSize width height * 2)%R pop
                (str_or (DiagramAction.color action) "#10b981")
                (DiagramAction.label action))
    | None => None
    end.

Definition TechScene (data : SceneData.t) (env : Hooks.t) : option Render.t :=
  let frame := Hooks.useCurrentFrame env in
  let width := Canvas.width (Hooks.useVideoConfig env) in
  let height := Canvas.height (Hooks.useVideoConfig env) in
  let fps := Canvas.fps (Hooks.useVideoConfig env) in
  match SceneData.diagramConfig data with
  | None => None
  | Some config =>
      let nodes := arr_or (DiagramConfig.nodes config) in
      let edges := arr_or (DiagramConfig.edges config) in
      let actions := arr_or (DiagramConfig.actions config) in
      Some (Render.mk
              (str_or (Some (SceneData.backgroundColor data)) "#0f172a")
              (SceneData.textColor data)
              (SceneData.title data)
              (SceneData.subtitle data)
              (Z.rem frame 80)
              (mapi (renderEdge data nodes frame width height fps) edges)
              (mapi (renderNode actions frame width height fps) nodes)
              (mapi (renderPacket nodes frame width height) actions)
              (mapi (renderPopup nodes frame width height fps) actions))
  end.

End Stage.

(** ** Scene.tsx: the standard layout *)

Module Standard.
Record t : Type := mk {
  backgroundColor : string;
  textColor : string;
  title : string;
  subtitle : string;
  isQuote : bool;
  isIntro : bool;
  (* the decorative ring of an intro: its side and its scale *)
  ring : option (R * R);
  fontSize : Z;
  opacity : R;
  textTranslateY : R;
  (* width of the progress bar, in percent *)
  progressWidth : R
}.
End Standard.

(** What [Scene] comes to: the standard layout, what the diagram renderer
    returned ([None] is [null]), or an error raised during the render. *)
Module SceneRender.
Inductive t (T : Type) : Type :=
| Layout (r : Standard.t)
| Diagram (d : option T)
| Throws.
Arguments Layout {T} r.
Arguments Diagram {T} d.
Arguments Throws {T}.
End SceneRender.

(** ** Composition.tsx: the timeline *)

(** What [MainComposition] hands to one [Sequence]. *)
Module SequenceProps.
Record t : Type := mk {
  key : Z;
  from : Z;
  durationInFrames : Z;
  child : SceneData.t
}.
End SequenceProps.

(** [data.scenes.map((scene, index) => ...)] with the variable
    [currentFrame] that the callback reads and advances: the state is passed
    along the list and returned with the result. *)
Fixpoint placeScenes (scenes : list SceneData.t) (index currentFrame : Z)
  : list SequenceProps.t * Z :=
  match scenes with
  | [] => ([], currentFrame)
  | scene :: rest =>
      let from := currentFrame in
      let currentFrame := currentFrame + SceneData.durationInFrames scene in
      let (placed, final) := placeScenes rest (index + 1) currentFrame in
      (SequenceProps.mk index from (SceneData.durationInFrames scene) scene
         :: placed,
       final)
  end.

Inductive Composition : Type :=
| NoSceneData
| Timeline (sequences : list SequenceProps.t).

(** [let currentFrame = 0] is set anew on every call. *)
Definition MainComposition (data : option VideoConfig.t) : Composition :=
  match data with
  | None => NoSceneData
  | Some config =>
      match VideoConfig.scenes config with
      | None => NoSceneData
      | Some scenes => Timeline (fst (placeScenes scenes 0 0))
      end
  end.

(** The timeline sequencer read off [MainComposition]: the sequences that
    are mounted at a global frame, each as (scene index, local frame). *)
Definition activeAt (globalFrame : Z) (s : SequenceProps.t) : list (Z * Z) :=
  match sequenceFrame (SequenceProps.from s) (SequenceProps.durationInFrames s)
          globalFrame with
  | Some localFrame => [(SequenceProps.key s, localFrame)]
  | None => []
  end.

Definition locate (scenes : list SceneData.t) (globalFrame : Z) : list (Z * Z) :=
  flat_map (activeAt globalFrame) (fst (placeScenes scenes 0 0)).

Section SceneComponent.

(** [Scene] imports [TechScene] from ./TechScene; the repository holds two
    sources of that component, so [Scene] is stated over either.  The
    breakpoints [[0, 10, d - 10, d]] of the opacity are increasing only for a
    scene of more than 20 frames: for a shorter one [interpolate] raises its
    error and the render fails, before anything is returned. *)
Variable T : Type.
Variable TechScene : SceneData.t -> Hooks.t -> option T.

Definition Scene (data : SceneData.t) (env : Hooks.t) : SceneRender.t T :=
  if sceneType_eqb (SceneData.type data) tech_diagram
  then SceneRender.Diagram (TechScene data env)
  else
    let frame := Hooks.useCurrentFrame env in
    let fps := Canvas.fps (Hooks.useVideoConfig env) in
    let width := Canvas.width (Hooks.useVideoConfig env) in
    let entrance := spring frame fps (SpringConfig.mk None (Some 200%R) None) in
    let textTranslateY := lerp entrance 100 0 in
    let d := SceneData.durationInFrames data in
    match interpolate (IZR frame)
            [0%R; 10%R; IZR (d - 10); IZR d] [0%R; 1%R; 1%R; 0%R] with
    | None => SceneRender.Throws
    | Some opacity =>
        let isQuote := sceneType_eqb (SceneData.type data) quote in
        let isIntro := sceneType_eqb (SceneData.type data) intro in
        SceneRender.Layout
          (Standard.mk
             (SceneData.backgroundColor data)
             (SceneData.textColor data)
             (SceneData.title data)
             (SceneData.subtitle data)
             isQuote
             isIntro
             (if isIntro then Some ((width * 1.5)%R, entrance) else None)
             (if isIntro then 80 else if isQuote then 50 else 70)
             opacity
             textTranslateY
             (IZR frame / IZR d * 100)%R)
    end.

(** The frame the host shows: every sequence of the timeline mounted at
    the current frame.  [None] is the "No Scene Data Available" card; an
    entry [Some Throws] is a mounted scene whose render raised an error. *)
Definition mount (c : Composition) (env : Hooks.t)
  : option (list (option (SceneRender.t T))) :=
  match c with
  | NoSceneData => None
  | Timeline sequences =>
      Some (map (fun s =>
                   Sequence (SequenceProps.from s)
                     (SequenceProps.durationInFrames s)
                     (Scene (SequenceProps.child s)) env)
              sequences)
  end.

Definition render (data : option VideoConfig.t) (env : Hooks.t)
  : option (list (option (SceneRender.t T))) :=
  mount (MainComposition data) env.

End SceneComponent.

Arguments Scene {T} TechScene data env.
Arguments mount {T} TechScene c env.
Arguments render {T} TechScene data env.

(** ** Post-processing of generated scenes *)

Definition withArrays (config : DiagramConfig.t) : DiagramConfig.t :=
  DiagramConfig.mk
    (Some (arr_or (DiagramConfig.nodes config)))
    (Some (arr_or (DiagramConfig.edges config)))
    (Some (arr_or (DiagramConfig.actions config))).

Definition setType (scene : SceneData.t) (ty : SceneType) : SceneData.t :=
  SceneData.mk (SceneData.title scene) (SceneData.subtitle scene)
    (SceneData.backgroundColor scene) (SceneData.textColor scene)
    (SceneData.durationInFrames scene) ty (SceneData.diagramConfig scene).

Definition setDiagramConfig (scene : SceneData.t) (config : DiagramConfig.t)
  : SceneData.t :=
  SceneData.mk (SceneData.title scene) (SceneData.subtitle scene)
    (SceneData.backgroundColor scene) (SceneData.textColor scene)
    (SceneData.durationInFrames scene) (SceneData.type scene) (Some config).

(** services/geminiService.ts: a [tech_diagram] without its payload becomes a
    [bullet_point]; otherwise the missing arrays are filled in. *)
Definition downgradeScene (scene : SceneData.t) : SceneData.t :=
  if sceneType_eqb (SceneData.type scene) tech_diagram then
    match SceneData.diagramConfig scene with
    | None => setType scene bullet_point
    | Some config => setDiagramConfig scene (withArrays config)
    end
  else scene.

(** unnamed/part_001: a [tech_diagram] without its payload gets the empty
    diagram; the missing arrays are filled in. *)
Definition substituteScene (scene : SceneData.t) : SceneData.t :=
  if sceneType_eqb (SceneData.type scene) tech_diagram then
    let config :=
      match SceneData.diagramConfig scene with
      | Some config => config
      | None => DiagramConfig.mk (Some []) (Some []) (Some [])
      end in
    setDiagramConfig scene (withArrays config)
  else scene.

(** ** App.tsx: the Redis distributed lock *)

Definition redisNodes : list DiagramNode.t :=
  [ DiagramNode.mk "redis" database "Redis Master" 50 50 (Some "#ef4444");
    DiagramNode.mk "clientA" client "Client A" 50 15 (Some "#3b82f6");
    DiagramNode.mk "clientB" client "Client B" 80 80 (Some "#a855f7");
    DiagramNode.mk "clientC" client "Client C" 20 80 (Some "#a855f7") ].

Definition redisEdges : list DiagramEdge.t :=
  [ DiagramEdge.mk "clientA" "redis" None None;
    DiagramEdge.mk "clientB" "redis" None None;
    DiagramEdge.mk "clientC" "redis" None None ].

Definition redisActions : list DiagramAction.t :=
  [ DiagramAction.mk packet 30 40 (Some "clientA") (Some "redis") None
      (Some "SETNX") (Some "#3b82f6");
    DiagramAction.mk packet 35 40 (Some "clientB") (Some "redis") None
      (Some "SETNX") (Some "#a855f7");
    DiagramAction.mk packet 40 40 (Some "clientC") (Some "redis") None
      (Some "SETNX") (Some "#a855f7");
    DiagramAction.mk highlight 70 20 None None (Some "redis")
      None (Some "#ef4444");
    DiagramAction.mk show_label 75 100 None None (Some "redis")
      (Some "LOCKED") (Some "#ef4444");
    DiagramAction.mk packet 90 30 (Some "redis") (Some "clientA") None
      (Some "OK") (Some "#10b981");
    DiagramAction.mk packet 95 30 (Some "redis") (Some "clientB") None
      (Some "FAIL") (Some "#ef4444");
    DiagramAction.mk packet 100 30 (Some "redis") (Some "clientC") None
      (Some "FAIL") (Some "#ef4444") ].

Definition redisScene : SceneData.t :=
  SceneData.mk "Redis Distributed Lock" "SETNX Concurrency"
    "#0f172a" "#e2e8f0" 240 tech_diagram
    (Some (DiagramConfig.mk (Some redisNodes) (Some redisEdges)
             (Some redisActions))).

Definition INITIAL_DATA : VideoConfig.t :=
  VideoConfig.mk "Redis Distributed Lock" "Techno / Cyberpunk" 240
    (Some [redisScene]) 1080 1080 30.

(** The canvas the [Player] of App.tsx hands to the composition. *)
Definition playerCanvas (config : VideoConfig.t) : Canvas.t :=
  Canvas.mk (VideoConfig.width config) (VideoConfig.height config)
    (VideoConfig.fps config) (VideoConfig.totalDuration config).

(** Modelled from the spec: the [Player] of the host library is not under
    src/.  Of a composition of [durationInFrames] frames it shows the frames
    [0] to [durationInFrames - 1] only: a frame requested outside them is
    brought to the nearest one inside. *)
Definition playerFrame (durationInFrames frame : Z) : Z :=
  Z.max 0 (Z.min frame (durationInFrames - 1)).

(** The ambient context of the composition when [frame] is requested of the
    [Player] of App.tsx, whose [durationInFrames] is
    [videoData.totalDuration]. *)
Definition playerEnv (config : VideoConfig.t) (frame : Z) : Hooks.t :=
  Hooks.mk (playerFrame (VideoConfig.totalDuration config) frame)
    (playerCanvas config).

(** ** GeneratorForm (unnamed/part_000) and the generation service *)

(** The [aspectRatio] state of the form: ['1:1' | '16:9' | '9:16']. *)
Inductive AspectRatio : Type :=
| ratio_1_1 | ratio_16_9 | ratio_9_16.

Module GeminiResponse.
Record t : Type := mk {
  scenes : list SceneData.t;
  suggestedMusicMood : string
}.
End GeminiResponse.

(** [scenes.reduce((acc, scene) => acc + scene.durationInFrames, 0)]. *)
Definition totalDuration (scenes : list SceneData.t) : Z :=
  fold_left (fun acc scene => acc + SceneData.durationInFrames scene) scenes 0.

(** "Resolve Dimensions": width and height for the selected aspect ratio. *)
Definition resolveDimensions (aspectRatio : AspectRatio) : Z * Z :=
  match aspectRatio with
  | ratio_16_9 => (1920, 1080)
  | ratio_9_16 => (1080, 1920)
  | ratio_1_1 => (1080, 1080)
  end.

(** The [videoConfig] that [handleSubmit] hands to [onVideoGenerated]. *)
Definition buildVideoConfig (topic : string) (aspectRatio : AspectRatio)
    (geminiData : GeminiResponse.t) : VideoConfig.t :=
  let (width, height) := resolveDimensions aspectRatio in
  VideoConfig.mk topic
    (GeminiResponse.suggestedMusicMood geminiData)
    (totalDuration (GeminiResponse.scenes geminiData))
    (Some (GeminiResponse.scenes geminiData))
    (IZR width) (IZR height) 30.

(** White space as [String.prototype.trim] and the class [\s] see it, among
    the ASCII characters: tab, line feed, vertical tab, form feed, carriage
    return and space.  The Unicode spaces beyond ASCII are not modelled: the
    strings below are strings of ASCII characters. *)
Definition isSpace (c : ascii) : bool :=
  let n := nat_of_ascii c in
  ((9 <=? n) && (n <=? 13))%nat || (n =? 32)%nat.

(** [!topic.trim()]: nothing is left once the white space is trimmed. *)
Fixpoint isBlank (s : string) : bool :=
  match s with
  | EmptyString => true
  | String c rest => isSpace c && isBlank rest
  end.

(** How a call of [generateVideoScript] settles: it resolves with the
    response or rejects with an error, whose [message] may be empty. *)
Inductive Settled : Type :=
| Fulfilled (data : GeminiResponse.t)
| Rejected (message : option string).

(** What of the component state [handleSubmit] reads and writes: the form's
    own [topic], [error], [aspectRatio] and [duration], and the [videoData]
    and [isGenerating] that belong to [App]. *)
Module FormState.
Record t : Type := mk {
  topic : string;
  error : option string;
  aspectRatio : AspectRatio;
  duration : Z;
  videoData : VideoConfig.t;
  isGenerating : bool
}.
End FormState.

(** [handleSubmit], from the state at the submit to the state once the
    service call has settled: a blank topic returns at once; otherwise
    [setIsGenerating(true)], [setError(null)], then the [try] block, the
    [catch] and the [finally]. *)
Definition handleSubmit (generateVideoScript : string -> Z -> Settled)
    (st : FormState.t) : FormState.t :=
  if isBlank (FormState.topic st) then st
  else
    match generateVideoScript (FormState.topic st) (FormState.duration st) with
    | Fulfilled geminiData =>
        FormState.mk (FormState.topic st) None
          (FormState.aspectRatio st) (FormState.duration st)
          (buildVideoConfig (FormState.topic st) (FormState.aspectRatio st)
             geminiData)
          false
    | Rejected message =>
        FormState.mk (FormState.topic st)
          (Some (str_or message
                   "Failed to generate video. Please check your API Key or try a different prompt."))
          (FormState.aspectRatio st) (FormState.duration st)
          (FormState.videoData st)
          false
    end.

(** [Math.max(3, Math.floor(durationSeconds / 5))] of
    services/geminiService.ts and [Math.max(3, Math.floor(durationSeconds / 6))]
    of unnamed/part_001, for a whole number of seconds. *)
Definition targetScenes (perScene durationSeconds : Z) : Z :=
  Z.max 3 (durationSeconds / perScene).

(** The end of [generateVideoScript], from the text of the model's answer
    on: an empty answer throws, [JSON.parse] may throw, and every scene of
    the parsed response goes through the post-processing pass
    ([downgradeScene] in services/geminiService.ts, [substituteScene] in
    unnamed/part_001).  The [catch] logs and throws the error on. *)
Definition finishScript (pass : SceneData.t -> SceneData.t)
    (JSON_parse : string -> GeminiResponse.t + string)
    (text : option string) : Settled :=
  if negb (truthy text) then Rejected (Some "No response from Gemini")
  else
    match JSON_parse (str_or text "") with
    | inl data =>
        Fulfilled (GeminiResponse.mk (map pass (GeminiResponse.scenes data))
                     (GeminiResponse.suggestedMusicMood data))
    | inr message => Rejected (Some message)
    end.

(** ** App.tsx: layout mode and the download name *)

(** [videoData.width >= videoData.height]. *)
Definition isLandscapeOrSquare (videoData : VideoConfig.t) : bool :=
  if Rle_dec (VideoConfig.height videoData) (VideoConfig.width videoData)
  then true else false.

(** [replace(/\s+/g, '-')]: every maximal run of white space becomes one
    hyphen.  [inRun] tells that the character before was white space. *)
Fixpoint replaceSpaceRuns (inRun : bool) (s : string) : string :=
  match s with
  | EmptyString => EmptyString
  | String c rest =>
      if isSpace c then
        if inRun then replaceSpaceRuns true rest
        else String "-" (replaceSpaceRuns true rest)
      else String c (replaceSpaceRuns false rest)
  end.

(** [toLowerCase] on an ASCII character. *)
Definition toLowerCase1 (c : ascii) : ascii :=
  let n := nat_of_ascii c in
  if ((65 <=? n) && (n <=? 90))%nat then ascii_of_nat (n + 32) else c.

Fixpoint toLowerCase (s : string) : string :=
  match s with
  | EmptyString => EmptyString
  | String c rest => String (toLowerCase1 c) (toLowerCase rest)
  end.

(** [videoData.topic.replace(/\s+/g, '-').toLowerCase()], the middle of the
    download name. *)
Definition slug (topic : string) : string :=
  toLowerCase (replaceSpaceRuns false topic).

Definition downloadName (videoData : VideoConfig.t) : string :=
  "animation-" ++ slug (VideoConfig.topic videoData) ++ ".json".

(** A string free of white space and of upper-case letters. *)
Definition isUpper (c : ascii) : bool :=
  let n := nat_of_ascii c in ((65 <=? n) && (n <=? 90))%nat.

Fixpoint allChars (p : ascii -> bool) (s : string) : bool :=
  match s with
  | EmptyString => true
  | String c rest => p c && allChars p rest
  end.

(** ** What the statements on the further code speak of *)

(** A scene as the post-processing passes leave it: a [tech_diagram] carries
    a configuration with its three arrays. *)
Definition normalised (scene : SceneData.t) : bool :=
  if sceneType_eqb (SceneData.type scene) tech_diagram then
    match SceneData.diagramConfig scene with
    | Some (DiagramConfig.mk (Some _) (Some _) (Some _)) => true
    | _ => false
    end
  else true.

(** Where an entry of the action effects shows a packet. *)
Definition Flat_packetAt (e : option Flat.Effect.t) : option (option R * option R) :=
  match e with
  | Some (Flat.Effect.Packet px py _ _) => Some (px, py)
  | _ => None
  end.

Definition Stage_packetAt (e : option Stage.Packet.t) : option (option R * option R) :=
  option_map (fun p => (Stage.Packet.left p, Stage.Packet.top p)) e.

(** Whether an entry of the flat renderer's effects is a label. *)
Definition Flat_isLabel (e : option Flat.Effect.t) : bool :=
  match e with
  | Some (Flat.Effect.Label _ _ _ _ _) => true
  | _ => false
  end.

(** ** Notions of the specification, for the statements below *)

(** Prefix sum of the scene durations: where scene [n] starts. *)
Definition offset (scenes : list SceneData.t) (n : nat) : Z :=
  fold_right Z.add 0 (map SceneData.durationInFrames (firstn n scenes)).

Definition totalFrames (scenes : list SceneData.t) : Z :=
  fold_right Z.add 0 (map SceneData.durationInFrames scenes).

(** The spec's policy for a frame outside the timeline: the nearest frame
    inside it. *)
Definition nearestFrame (scenes : list SceneData.t) (globalFrame : Z) : Z :=
  Z.max 0 (Z.min globalFrame (totalFrames scenes - 1)).

(** An entry of a mapped array that is not [null]. *)
Definition rendered {A : Type} (o : option A) : bool :=
  match o with
  | Some _ => true
  | None => false
  end.

(** How many entries of a mapped array are rendered. *)
Definition countRendered {A : Type} (l : list (option A)) : nat :=
  List.length (filter rendered l).

(** How many nodes, edges and action effects a diagram render shows. *)
Definition Flat_drawn (r : Flat.Render.t) : nat :=
  List.length (Flat.Render.nodes r)
  + countRendered (Flat.Render.edges r)
  + countRendered (Flat.Render.effects r).

Definition Stage_drawn (r : Stage.Render.t) : nat :=
  List.length (Stage.Render.nodes r)
  + countRendered (Stage.Render.edges r)
  + countRendered (Stage.Render.packets r)
  + countRendered (Stage.Render.popups r).

(** A one-node diagram whose node is highlighted from the first frame on. *)
Definition soloNode : DiagramNode.t :=
  DiagramNode.mk "api" server "API" 50 50 None.

Definition soloHighlight : DiagramAction.t :=
  DiagramAction.mk highlight 0 10 None None (Some "api") None None.

(** What a critically damped step preserves: the progress has not passed
    the target and rises, no faster than [w0] times what is left. *)
Definition risingCritical (w0 : R) (s : Oscillator.t) : Prop :=
  (0 <= Oscillator.velocity s
   /\ Oscillator.velocity s <= w0 * displacement s)%R.

(** What an over-damped step preserves. *)
Definition risingOverDamped (zeta w0 : R) (s : Oscillator.t) : Prop :=
  (0 <= slowPart zeta w0 s
   /\ fastPart zeta w0 s <= 0
   /\ 0 <= displacement s
   /\ 0 <= Oscillator.velocity s)%R.

(** The timeline under any other reading of a sequence's window: [gate]
    decides, from what [MainComposition] hands to a sequence and the global
    frame, whether the sequence is mounted and at which local frame. *)
Definition locateWith (gate : Z -> Z -> Z -> option Z)
    (scenes : list SceneData.t) (globalFrame : Z) : list (Z * Z) :=
  flat_map
    (fun s =>
       match gate (SequenceProps.from s) (SequenceProps.durationInFrames s)
               globalFrame with
       | Some localFrame => [(SequenceProps.key s, localFrame)]
       | None => []
       end)
    (fst (placeScenes scenes 0 0)).

(** A plain scene of a given kind and length. *)
Definition plainScene (ty : SceneType) (frames : Z) : SceneData.t :=
  SceneData.mk "Title" "Subtitle" "#0B0F19" "#ffffff" frames ty None.

(* ================================================================== *)
(** * Properties *)
(* ================================================================== *)

(** ** The timeline *)

Lemma sequenceFrame_Some from d g l :
  sequenceFrame from d g = Some l <-> from <= g < from + d /\ l = g - from.
Proof.
  unfold sequenceFrame.
  destruct (from <=? g) eqn:E1; destruct (g <? from + d) eqn:E2; simpl;
    rewrite ?Z.leb_le, ?Z.leb_gt, ?Z.ltb_lt, ?Z.ltb_ge in *;
    split; intros H; try discriminate; try lia.
  - inversion H; subst; lia.
  - destruct H as [_ ->]; reflexivity.
Qed.

Lemma sequenceFrame_None from d g :
  sequenceFrame from d g = None <-> g < from \/ from + d <= g.
Proof.
  unfold sequenceFrame.
  destruct (from <=? g) eqn:E1; destruct (g <? from + d) eqn:E2; simpl;
    rewrite ?Z.leb_le, ?Z.leb_gt, ?Z.ltb_lt, ?Z.ltb_ge in *;
    split; intros H; try discriminate; try reflexivity; lia.
Qed.

Lemma placeScenes_cons s rest i c :
  fst (placeScenes (s :: rest) i c)
  = SequenceProps.mk i c (SceneData.durationInFrames s) s
      :: fst (placeScenes rest (i + 1) (c + SceneData.durationInFrames s)).
Proof.
  simpl. destruct (placeScenes rest (i + 1) (c + SceneData.durationInFrames s)).
  reflexivity.
Qed.


Lemma placeScenes_length scenes : forall i c,
  List.length (fst (placeScenes scenes i c)) = List.length scenes.
Proof.
  induction scenes as [|s rest IH]; intros i c.
  - reflexivity.
  - rewrite placeScenes_cons. simpl. now rewrite IH.
Qed.

(** The [n]-th sequence carries the index [n], starts at the prefix sum of
    the durations before it and lasts as long as its scene. *)
Lemma placeScenes_nth scenes : forall n i c,
  nth_error (fst (placeScenes scenes i c)) n
  = option_map
      (fun s => SequenceProps.mk (i + Z.of_nat n) (c + offset scenes n)
                  (SceneData.durationInFrames s) s)
      (nth_error scenes n).
Proof.
  induction scenes as [|s rest IH]; intros n i c.
  - destruct n; reflexivity.
  - rewrite placeScenes_cons. destruct n as [|n].
    + simpl. unfold offset. simpl. now rewrite !Z.add_0_r.
    + cbn [nth_error]. rewrite IH.
      destruct (nth_error rest n); simpl; [|reflexivity].
      f_equal. f_equal; unfold offset; simpl; lia.
Qed.



(** Membership in [locate]: scene [n] is mounted at [g] with local frame [l]
    exactly when [g] lies in its half-open interval. *)
Lemma locate_from_spec scenes g : forall i c k l,
  In (k, l) (flat_map (activeAt g) (fst (placeScenes scenes i c)))
  <-> exists n s, nth_error scenes n = Some s /\ k = i + Z.of_nat n
        /\ c + offset scenes n <= g
             < c + offset scenes n + SceneData.durationInFrames s
        /\ l = g - (c + offset scenes n).
Proof.
  induction scenes as [|s0 rest IH]; intros i c k l.
  - simpl. split; [tauto|]. intros (n & s & Hn & _). destruct n; discriminate.
  - rewrite placeScenes_cons. cbn [flat_map]. rewrite in_app_iff, IH.
    unfold activeAt at 1. cbn [SequenceProps.from SequenceProps.durationInFrames
                               SequenceProps.key].
    split.
    + intros [H | (n & s & Hn & Hk & Hg & Hl)].
      * destruct (sequenceFrame c (SceneData.durationInFrames s0) g) as [l0|] eqn:E;
          [|contradiction].
        destruct H as [H|[]]. inversion H; subst.
        apply sequenceFrame_Some in E.
        exists O, s0. unfold offset. simpl. repeat split; lia.
      * exists (S n), s. unfold offset in *. simpl in *.
        repeat split; try assumption; lia.
    + intros (n & s & Hn & Hk & Hg & Hl). destruct n as [|n].
      * left. simpl in Hn. inversion Hn; subst. unfold offset in *. simpl in *.
        assert (E : sequenceFrame c (SceneData.durationInFrames s) g = Some (g - c)).
        { apply sequenceFrame_Some. lia. }
        rewrite E. left. f_equal; lia.
      * right. exists n, s. unfold offset in *. simpl in *.
        repeat split; try assumption; lia.
Qed.

Lemma locate_spec scenes g k l :
  In (k, l) (locate scenes g)
  <-> exists n s, nth_error scenes n = Some s /\ k = Z.of_nat n
        /\ offset scenes n <= g < offset scenes n + SceneData.durationInFrames s
        /\ l = g - offset scenes n.
Proof.
  unfold locate. rewrite locate_from_spec.
  split; intros (n & s & Hn & Hk & Hg & Hl); exists n, s;
    repeat split; try assumption; lia.
Qed.

Lemma none_before scenes : forall i c g,
  Forall (fun s => 0 <= SceneData.durationInFrames s) scenes ->
  g < c ->
  flat_map (activeAt g) (fst (placeScenes scenes i c)) = [].
Proof.
  induction scenes as [|s rest IH]; intros i c g H Hg; [reflexivity|].
  inversion H; subst. rewrite placeScenes_cons. cbn [flat_map].
  rewrite IH by (assumption || lia).
  unfold activeAt. cbn [SequenceProps.from SequenceProps.durationInFrames].
  replace (sequenceFrame c (SceneData.durationInFrames s) g) with (@None Z);
    [reflexivity|].
  symmetry. apply sequenceFrame_None. lia.
Qed.

Lemma none_after scenes : forall i c g,
  Forall (fun s => 0 <= SceneData.durationInFrames s) scenes ->
  c + totalFrames scenes <= g ->
  flat_map (activeAt g) (fst (placeScenes scenes i c)) = [].
Proof.
  induction scenes as [|s rest IH]; intros i c g H Hg; [reflexivity|].
  inversion H; subst. rewrite placeScenes_cons. cbn [flat_map].
  assert (Ht : 0 <= totalFrames rest).
  { clear -H3. induction rest; unfold totalFrames in *; simpl; [lia|].
    inversion H3; subst. specialize (IHrest H2). lia. }
  unfold totalFrames in Hg, Ht. simpl in Hg.
  rewrite IH by (assumption || (unfold totalFrames; lia)).
  unfold activeAt. cbn [SequenceProps.from SequenceProps.durationInFrames].
  replace (sequenceFrame c (SceneData.durationInFrames s) g) with (@None Z);
    [reflexivity|].
  symmetry. apply sequenceFrame_None. lia.
Qed.

Lemma positive_nonneg scenes :
  Forall (fun s => 0 < SceneData.durationInFrames s) scenes ->
  Forall (fun s => 0 <= SceneData.durationInFrames s) scenes.
Proof. apply Forall_impl. intros; lia. Qed.

Lemma activeAt_in s g :
  SequenceProps.from s <= g
    < SequenceProps.from s + SequenceProps.durationInFrames s ->
  activeAt g s = [(SequenceProps.key s, g - SequenceProps.from s)].
Proof.
  intros H. unfold activeAt.
  replace (sequenceFrame (SequenceProps.from s)
             (SequenceProps.durationInFrames s) g)
    with (Some (g - SequenceProps.from s)); [reflexivity|].
  symmetry. apply sequenceFrame_Some. lia.
Qed.

Lemma activeAt_out s g :
  g < SequenceProps.from s
  \/ SequenceProps.from s + SequenceProps.durationInFrames s <= g ->
  activeAt g s = [].
Proof.
  intros H. unfold activeAt.
  replace (sequenceFrame (SequenceProps.from s)
             (SequenceProps.durationInFrames s) g) with (@None Z);
    [reflexivity|].
  symmetry. apply sequenceFrame_None. lia.
Qed.

(** C2.  [MainComposition] places scene [n] at the prefix sum of the
    durations before it, for the scene's own duration; with the half-open
    window of a sequence, a scene is mounted at a global frame exactly when
    the frame lies in [[offset n, offset n + duration n)], and then sees the
    local frame [g - offset n].  Hence, for positive durations and at least
    three scenes, frame [d0 + d1] is frame 0 of scene 2 and frame
    [d0 + d1 - 1] is frame [d1 - 1] of scene 1. *)
Theorem timeline_offsets (scenes : list SceneData.t)
    (Hpos : Forall (fun s => 0 < SceneData.durationInFrames s) scenes) :
  (forall n s, nth_error scenes n = Some s ->
     nth_error (fst (placeScenes scenes 0 0)) n
     = Some (SequenceProps.mk (Z.of_nat n) (offset scenes n)
               (SceneData.durationInFrames s) s))
  /\ (forall g k l,
        In (k, l) (locate scenes g)
        <-> exists n s, nth_error scenes n = Some s /\ k = Z.of_nat n
              /\ offset scenes n <= g
                   < offset scenes n + SceneData.durationInFrames s
              /\ l = g - offset scenes n)
  /\ (forall s0 s1 s2 rest, scenes = s0 :: s1 :: s2 :: rest ->
        let d0 := SceneData.durationInFrames s0 in
        let d1 := SceneData.durationInFrames s1 in
        locate scenes (d0 + d1) = [(2, 0)]
        /\ locate scenes (d0 + d1 - 1) = [(1, d1 - 1)]).
Proof.
  split; [|split].
  - intros n s Hn. rewrite placeScenes_nth, Hn. reflexivity.
  - intros g k l. apply locate_spec.
  - intros s0 s1 s2 rest -> d0 d1.
    inversion Hpos as [|? ? P0 H0]; subst.
    inversion H0 as [|? ? P1 H1]; subst.
    inversion H1 as [|? ? P2 H2]; subst.
    apply positive_nonneg in H2.
    unfold locate. rewrite !placeScenes_cons. cbn [flat_map]. split.
    + rewrite (activeAt_out (SequenceProps.mk 0 _ _ _)),
        (activeAt_out (SequenceProps.mk (0 + 1) _ _ _)),
        (activeAt_in (SequenceProps.mk (0 + 1 + 1) _ _ _)),
        none_before; cbn; subst d0 d1; try assumption; try lia.
      f_equal. f_equal; lia.
    + rewrite (activeAt_out (SequenceProps.mk 0 _ _ _)),
        (activeAt_in (SequenceProps.mk (0 + 1) _ _ _)),
        (activeAt_out (SequenceProps.mk (0 + 1 + 1) _ _ _)),
        none_before; cbn; subst d0 d1; try assumption; try lia.
      f_equal. f_equal; lia.
Qed.

Lemma timeline_offsets_witness :
  locate [plainScene intro 30; plainScene quote 40; plainScene outro 50] 70
    = [(2, 0)]
  /\ locate [plainScene intro 30; plainScene quote 40; plainScene outro 50] 69
    = [(1, 39)].
Proof.
  refine (proj2 (proj2 (timeline_offsets
            [plainScene intro 30; plainScene quote 40; plainScene outro 50] _))
            _ _ _ _ eq_refl).
  repeat constructor.
Defined.

(** ** Frames outside the timeline *)

(** Clamping cannot come from the sequences: [MainComposition] hands each
    sequence only its own start and duration, so whatever a window does with
    these and the frame, it cannot both mount exactly the scene of a frame
    inside the timeline and bring a frame outside it to the nearest scene.
    The second scene of two and of three scenes gets the same start and
    duration, and frame 70 is past the end in one timeline and the first
    frame of the third scene in the other. *)
Lemma no_window_clamps :
  ~ exists gate : Z -> Z -> Z -> option Z,
      (forall scenes g, 0 <= g < totalFrames scenes ->
         locateWith gate scenes g = locate scenes g)
      /\ (forall scenes g, g < 0 \/ totalFrames scenes <= g ->
            locateWith gate scenes g = locate scenes (nearestFrame scenes g)).
Proof.
  intros (gate & Hin & Hout).
  assert (H2 : locateWith gate [plainScene intro 30; plainScene quote 40] 70
               = [(1, 39)]).
  { rewrite Hout by (right; unfold totalFrames; simpl; lia). reflexivity. }
  assert (H3 : locateWith gate [plainScene intro 30; plainScene quote 40;
                                plainScene outro 50] 70 = [(2, 0)]).
  { rewrite Hin by (unfold totalFrames; simpl; lia). reflexivity. }
  unfold locateWith in H2, H3. cbn in H2, H3.
  destruct (gate 0 30 70) as [l0|]; destruct (gate 30 40 70) as [l1|];
    destruct (gate 70 50 70) as [l2|]; simpl in H2, H3;
    inversion H2; inversion H3.
Qed.

(** ** Arrays *)

Lemma mapi_from_nth {A B : Type} (f : A -> Z -> B) (l : list A) : forall i n,
  nth_error (mapi_from f i l) n
  = option_map (fun a => f a (i + Z.of_nat n)) (nth_error l n).
Proof.
  induction l as [|a l IH]; intros i n.
  - destruct n; reflexivity.
  - destruct n as [|n]; simpl.
    + now rewrite Z.add_0_r.
    + rewrite IH. destruct (nth_error l n); simpl; [|reflexivity].
      do 2 f_equal. lia.
Qed.

Lemma mapi_nth {A B : Type} (f : A -> Z -> B) (l : list A) n :
  nth_error (mapi f l) n = option_map (fun a => f a (Z.of_nat n)) (nth_error l n).
Proof. unfold mapi. now rewrite mapi_from_nth. Qed.

Lemma map_mapi_from {A B C : Type} (f : A -> Z -> B) (g : B -> C) (h : A -> C) :
  (forall a i, g (f a i) = h a) ->
  forall l i, map g (mapi_from f i l) = map h l.
Proof.
  intros H l. induction l as [|a l IH]; intros i; simpl; [reflexivity|].
  now rewrite H, IH.
Qed.

Lemma find_some_iff {A : Type} (p : A -> bool) (l : list A) :
  (exists a, find p l = Some a) <-> (exists a, In a l /\ p a = true).
Proof.
  split.
  - intros [a H]. exists a. now apply find_some in H.
  - intros [a [Hin Hp]]. destruct (find p l) eqn:E; [eauto|].
    now rewrite (find_none _ _ E a Hin) in Hp.
Qed.

Lemma actionType_eqb_eq a b : actionType_eqb a b = true <-> a = b.
Proof. destruct a, b; simpl; split; intros H; congruence. Qed.

Lemma opt_eqb_eq x s : opt_eqb x s = true <-> x = Some s.
Proof.
  destruct x as [v|]; simpl.
  - rewrite String.eqb_eq. split; congruence.
  - split; discriminate.
Qed.

Lemma inWindow_iff f a :
  inWindow f a = true
  <-> DiagramAction.startDelay a <= f
        < DiagramAction.startDelay a + DiagramAction.duration a.
Proof. unfold inWindow. rewrite andb_true_iff, Z.leb_le, Z.ltb_lt. tauto. Qed.

(** ** Highlight *)

Lemma Flat_activeHighlight_iff actions node f :
  (exists a, Flat.activeHighlight actions node f = Some a)
  <-> exists a, In a actions
        /\ DiagramAction.type a = highlight
        /\ DiagramAction.targetId a = Some (DiagramNode.id node)
        /\ DiagramAction.startDelay a <= f
             < DiagramAction.startDelay a + DiagramAction.duration a.
Proof.
  unfold Flat.activeHighlight. rewrite find_some_iff.
  split; intros (a & Hin & H); exists a; split; try assumption.
  - rewrite !andb_true_iff, actionType_eqb_eq, opt_eqb_eq, inWindow_iff in H.
    tauto.
  - rewrite !andb_true_iff, actionType_eqb_eq, opt_eqb_eq, inWindow_iff.
    tauto.
Qed.

Lemma Stage_activeAction_iff actions node f :
  (exists a, Stage.activeAction actions node f = Some a)
  <-> exists a, In a actions
        /\ (DiagramAction.type a = highlight \/ DiagramAction.type a = pulse)
        /\ DiagramAction.targetId a = Some (DiagramNode.id node)
        /\ DiagramAction.startDelay a <= f
             < DiagramAction.startDelay a + DiagramAction.duration a.
Proof.
  unfold Stage.activeAction. rewrite find_some_iff.
  split; intros (a & Hin & H); exists a; split; try assumption.
  - rewrite !andb_true_iff, orb_true_iff, !actionType_eqb_eq, opt_eqb_eq,
      inWindow_iff in H. tauto.
  - rewrite !andb_true_iff, orb_true_iff, !actionType_eqb_eq, opt_eqb_eq,
      inWindow_iff. tauto.
Qed.

Lemma Flat_highlighted_nodes data actions f w h fps nodes :
  map Flat.Node.highlighted
    (mapi (Flat.renderNode data actions f w h fps) nodes)
  = map (fun n => rendered (Flat.activeHighlight actions n f)) nodes.
Proof.
  unfold mapi. apply map_mapi_from. intros a i. unfold Flat.renderNode.
  cbn [Flat.Node.highlighted]. reflexivity.
Qed.

Lemma Stage_highlighted_nodes actions f w h fps nodes :
  map Stage.Node.highlighted
    (mapi (Stage.renderNode actions f w h fps) nodes)
  = map (fun n => rendered (Stage.activeAction actions n f)) nodes.
Proof.
  unfold mapi. apply map_mapi_from. intros a i. unfold Stage.renderNode.
  cbn [Stage.Node.highlighted]. reflexivity.
Qed.

(** C5.  In both renderers a node is in its highlighted state at a frame
    exactly when some highlight action (in the tilted-stage renderer: highlight
    or pulse) targets its id and has the frame in
    [[startDelay, startDelay + duration)].  In the Redis scene of App.tsx,
    whose only such action is
    [{type: highlight, targetId: 'redis', startDelay: 70, duration: 20}],
    the node [redis] is highlighted exactly at the frames of [[70, 90)], so
    not at 69 and not at 90, and no other node ever is. *)
Theorem highlight_window :
  (forall data actions f w h fps node i,
     Flat.Node.highlighted (Flat.renderNode data actions f w h fps node i) = true
     <-> exists a, In a actions
           /\ DiagramAction.type a = highlight
           /\ DiagramAction.targetId a = Some (DiagramNode.id node)
           /\ DiagramAction.startDelay a <= f
                < DiagramAction.startDelay a + DiagramAction.duration a)
  /\ (forall actions f w h fps node i,
        Stage.Node.highlighted (Stage.renderNode actions f w h fps node i) = true
        <-> exists a, In a actions
              /\ (DiagramAction.type a = highlight
                  \/ DiagramAction.type a = pulse)
              /\ DiagramAction.targetId a = Some (DiagramNode.id node)
              /\ DiagramAction.startDelay a <= f
                   < DiagramAction.startDelay a + DiagramAction.duration a)
  /\ (forall canvas f,
        option_map (fun r => map Flat.Node.highlighted (Flat.Render.nodes r))
          (Flat.TechScene redisScene (Hooks.mk f canvas))
        = Some [(70 <=? f) && (f <? 90); false; false; false])
  /\ (forall canvas f,
        option_map (fun r => map Stage.Node.highlighted (Stage.Render.nodes r))
          (Stage.TechScene redisScene (Hooks.mk f canvas))
        = Some [(70 <=? f) && (f <? 90); false; false; false]).
Proof.
  repeat split.
  - intros H. apply Flat_activeHighlight_iff.
    unfold Flat.renderNode in H. cbn [Flat.Node.highlighted] in H.
    destruct (Flat.activeHighlight actions node f); [eauto|discriminate].
  - intros H. apply Flat_activeHighlight_iff in H. destruct H as [a Ha].
    unfold Flat.renderNode. cbn [Flat.Node.highlighted]. now rewrite Ha.
  - intros H. apply Stage_activeAction_iff.
    unfold Stage.renderNode in H. cbn [Stage.Node.highlighted] in H.
    destruct (Stage.activeAction actions node f); [eauto|discriminate].
  - intros H. apply Stage_activeAction_iff in H. destruct H as [a Ha].
    unfold Stage.renderNode. cbn [Stage.Node.highlighted]. now rewrite Ha.
  - intros canvas f. unfold Flat.TechScene.
    cbn [SceneData.diagramConfig redisScene option_map Flat.Render.nodes
         DiagramConfig.nodes DiagramConfig.actions arr_or].
    rewrite Flat_highlighted_nodes. f_equal. cbn. unfold inWindow. cbn.
    destruct (70 <=? f), (f <? 90); reflexivity.
  - intros canvas f. unfold Stage.TechScene.
    cbn [SceneData.diagramConfig redisScene option_map Stage.Render.nodes
         DiagramConfig.nodes DiagramConfig.actions arr_or].
    rewrite Stage_highlighted_nodes. f_equal. cbn. unfold inWindow. cbn.
    destruct (70 <=? f), (f <? 90); reflexivity.
Qed.

Lemma highlight_window_witness :
  option_map (fun r => map Stage.Node.highlighted (Stage.Render.nodes r))
    (Stage.TechScene redisScene (Hooks.mk 89 (playerCanvas INITIAL_DATA)))
  = Some [true; false; false; false]
  /\ option_map (fun r => map Stage.Node.highlighted (Stage.Render.nodes r))
       (Stage.TechScene redisScene (Hooks.mk 90 (playerCanvas INITIAL_DATA)))
     = Some [false; false; false; false].
Proof.
  split.
  - exact (proj2 (proj2 (proj2 highlight_window))
             (playerCanvas INITIAL_DATA) 89).
  - exact (proj2 (proj2 (proj2 highlight_window))
             (playerCanvas INITIAL_DATA) 90).
Defined.

(** The Redis scene of App.tsx, end to end, in both renderers: at frame 0 no
    packet is rendered; at frame 80 the [redis] node is highlighted and of
    the three SETNX packets only the third (clientC to redis) is rendered,
    together with the LOCKED label; at frame 85 the LOCKED label is
    rendered. *)
Lemma redis_scenario :
  (option_map (fun r => map rendered (Flat.Render.effects r))
     (Flat.TechScene redisScene (playerEnv INITIAL_DATA 0))
   = Some [false; false; false; false; false; false; false; false]
   /\ option_map (fun r => map rendered (Stage.Render.packets r))
        (Stage.TechScene redisScene (playerEnv INITIAL_DATA 0))
      = Some [false; false; false; false; false; false; false; false])
  /\ (option_map (fun r => map Flat.Node.highlighted (Flat.Render.nodes r))
        (Flat.TechScene redisScene (playerEnv INITIAL_DATA 80))
      = Some [true; false; false; false]
      /\ option_map (fun r => map rendered (Flat.Render.effects r))
           (Flat.TechScene redisScene (playerEnv INITIAL_DATA 80))
         = Some [false; false; true; false; true; false; false; false]
      /\ option_map (fun r => map Stage.Node.highlighted (Stage.Render.nodes r))
           (Stage.TechScene redisScene (playerEnv INITIAL_DATA 80))
         = Some [true; false; false; false]
      /\ option_map (fun r => map rendered (Stage.Render.packets r))
           (Stage.TechScene redisScene (playerEnv INITIAL_DATA 80))
         = Some [false; false; true; false; false; false; false; false])
  /\ (option_map (fun r => nth_error (map rendered (Flat.Render.effects r)) 4)
        (Flat.TechScene redisScene (playerEnv INITIAL_DATA 85))
      = Some (Some true)
      /\ option_map (fun r => nth_error (map rendered (Stage.Render.popups r)) 4)
           (Stage.TechScene redisScene (playerEnv INITIAL_DATA 85))
         = Some (Some true)).
Proof. repeat split; reflexivity. Qed.

(** ** Packets *)

Lemma clamp01_id p : (0 <= p <= 1)%R -> clamp01 p = p.
Proof.
  intros [H0 H1]. unfold clamp01.
  rewrite Rmax_left by assumption. now rewrite Rmin_left.
Qed.

Lemma progress_in_window f sd dur :
  0 < dur -> sd <= f <= sd + dur ->
  (0 <= IZR (f - sd) / IZR dur <= 1)%R.
Proof.
  intros Hd Hw.
  assert (Hd' : (0 < IZR dur)%R) by (apply IZR_lt; lia).
  assert (H0 : (0 <= IZR (f - sd))%R) by (apply IZR_le; lia).
  assert (H1 : (IZR (f - sd) <= IZR dur)%R) by (apply IZR_le; lia).
  split.
  - apply Rmult_le_reg_r with (IZR dur); [assumption|].
    unfold Rdiv. rewrite Rmult_assoc, Rinv_l by lra. lra.
  - apply Rmult_le_reg_r with (IZR dur); [assumption|].
    unfold Rdiv. rewrite Rmult_assoc, Rinv_l by lra. lra.
Qed.

(** C3, against the claim: the first packet of the Redis scene has
    [startDelay = 30] and [duration = 40]; at frame 70 = 30 + 40 both
    renderers still render it (as they do the two packets that started at 35
    and 40), where the claim has it absent. *)
Lemma packet_rendered_at_window_end :
  option_map (fun r => map rendered (Flat.Render.effects r))
    (Flat.TechScene redisScene (playerEnv INITIAL_DATA 70))
  = Some [true; true; true; false; false; false; false; false]
  /\ option_map (fun r => map rendered (Stage.Render.packets r))
       (Stage.TechScene redisScene (playerEnv INITIAL_DATA 70))
     = Some [true; true; true; false; false; false; false; false].
Proof. split; reflexivity. Qed.

(** C3, as the code has it.  A packet action whose two endpoint ids are
    present, non-empty and resolvable is rendered exactly on the closed frame
    window [startDelay <= frame <= startDelay + duration], in both renderers:
    not before it, still at [startDelay + duration], and at no frame after
    it. *)
Theorem packet_window (nodes : list DiagramNode.t) (action : DiagramAction.t)
    (f : Z) (w h fps : R) (i : Z)
    (Htype : DiagramAction.type action = packet)
    (Hfrom : truthy (DiagramAction.fromId action) = true)
    (Hto : truthy (DiagramAction.toId action) = true)
    (Rfrom : findNode nodes (DiagramAction.fromId action) <> None)
    (Rto : findNode nodes (DiagramAction.toId action) <> None) :
  (rendered (Flat.renderAction nodes f w h fps action i) = true
   <-> DiagramAction.startDelay action <= f
         <= DiagramAction.startDelay action + DiagramAction.duration action)
  /\ (rendered (Stage.renderPacket nodes f w h action i) = true
      <-> DiagramAction.startDelay action <= f
            <= DiagramAction.startDelay action + DiagramAction.duration action).
Proof.
  unfold Flat.renderAction, Stage.renderPacket. cbv zeta.
  rewrite Htype, Hfrom, Hto. cbn [actionType_eqb andb orb negb].
  destruct (findNode nodes (DiagramAction.fromId action)); [|congruence].
  destruct (findNode nodes (DiagramAction.toId action)); [|congruence].
  destruct (f <? DiagramAction.startDelay action) eqn:E1;
    destruct (DiagramAction.startDelay action + DiagramAction.duration action <? f)
      eqn:E2;
    cbn [andb rendered];
    rewrite ?Z.ltb_lt, ?Z.ltb_ge in *;
    (split; split; intros H; try discriminate; try reflexivity; lia).
Qed.

Lemma packet_window_witness :
  rendered (Flat.renderAction redisNodes 70 1080 1080 30
              (DiagramAction.mk packet 30 40 (Some "clientA") (Some "redis")
                 None (Some "SETNX") (Some "#3b82f6")) 0) = true
  /\ rendered (Stage.renderPacket redisNodes 71 1080 1080
              (DiagramAction.mk packet 30 40 (Some "clientA") (Some "redis")
                 None (Some "SETNX") (Some "#3b82f6")) 0) = false.
Proof.
  pose proof (packet_window redisNodes
                (DiagramAction.mk packet 30 40 (Some "clientA") (Some "redis")
                   None (Some "SETNX") (Some "#3b82f6"))) as W.
  split.
  - apply (W 70 1080%R 1080%R 30%R 0 eq_refl eq_refl eq_refl);
      simpl; try discriminate; lia.
  - destruct (W 71 1080%R 1080%R 30%R 0 eq_refl eq_refl eq_refl) as [_ [W2 _]];
      simpl; try discriminate.
    destruct (rendered _); [|reflexivity].
    exfalso. specialize (W2 eq_refl). simpl in W2. lia.
Defined.

Lemma toPx_lerp p a b dim :
  lerp p (toPx a dim) (toPx b dim) = toPx (lerp p a b) dim.
Proof. unfold lerp, toPx. lra. Qed.

Lemma packetProgress_in_window f sd dur :
  0 < dur -> sd <= f <= sd + dur ->
  packetProgress f sd dur = Some (IZR (f - sd) / IZR dur)%R.
Proof.
  intros Hd Hw. unfold packetProgress.
  replace (dur =? 0) with false by (symmetry; apply Z.eqb_neq; lia).
  now rewrite clamp01_id by now apply progress_in_window.
Qed.

Lemma Flat_effects_nth data canvas f n :
  option_map (fun r => nth_error (Flat.Render.effects r) n)
    (Flat.TechScene data (Hooks.mk f canvas))
  = option_map
      (fun config =>
         option_map
           (fun a => Flat.renderAction (arr_or (DiagramConfig.nodes config)) f
                       (Canvas.width canvas) (Canvas.height canvas)
                       (Canvas.fps canvas) a (Z.of_nat n))
           (nth_error (arr_or (DiagramConfig.actions config)) n))
      (SceneData.diagramConfig data).
Proof.
  unfold Flat.TechScene.
  destruct (SceneData.diagramConfig data); [|reflexivity].
  cbn [option_map Flat.Render.effects Hooks.useCurrentFrame
       Hooks.useVideoConfig]. now rewrite mapi_nth.
Qed.

Lemma Stage_packets_nth data canvas f n :
  option_map (fun r => nth_error (Stage.Render.packets r) n)
    (Stage.TechScene data (Hooks.mk f canvas))
  = option_map
      (fun config =>
         option_map
           (fun a => Stage.renderPacket (arr_or (DiagramConfig.nodes config)) f
                       (Canvas.width canvas) (Canvas.height canvas)
                       a (Z.of_nat n))
           (nth_error (arr_or (DiagramConfig.actions config)) n))
      (SceneData.diagramConfig data).
Proof.
  unfold Stage.TechScene.
  destruct (SceneData.diagramConfig data); [|reflexivity].
  cbn [option_map Stage.Render.packets Hooks.useCurrentFrame
       Hooks.useVideoConfig]. now rewrite mapi_nth.
Qed.

(** The position of a packet in flight, in both renderers. *)
Lemma packet_in_flight nodes action f w h fps i from to :
  DiagramAction.type action = packet ->
  truthy (DiagramAction.fromId action) = true ->
  truthy (DiagramAction.toId action) = true ->
  findNode nodes (DiagramAction.fromId action) = Some from ->
  findNode nodes (DiagramAction.toId action) = Some to ->
  0 < DiagramAction.duration action ->
  DiagramAction.startDelay action <= f
    <= DiagramAction.startDelay action + DiagramAction.duration action ->
  let p := (IZR (f - DiagramAction.startDelay action)
            / IZR (DiagramAction.duration action))%R in
  Flat.renderAction nodes f w h fps action i
  = Some (Flat.Effect.Packet
            (Some (toPx (lerp p (DiagramNode.x from) (DiagramNode.x to)) w))
            (Some (toPx (lerp p (DiagramNode.y from) (DiagramNode.y to)) h))
            (str_or (DiagramAction.color action) "#ffffff")
            (str_or (DiagramAction.label action) "DATA"))
  /\ Stage.renderPacket nodes f w h action i
     = Some (Stage.Packet.mk
               (Some (toPx (lerp p (DiagramNode.x from) (DiagramNode.x to)) w))
               (Some (toPx (lerp p (DiagramNode.y from) (DiagramNode.y to)) h))
               (str_or (DiagramAction.color action) "#fff")
               (if truthy (DiagramAction.label action)
                then DiagramAction.label action else None)).
Proof.
  intros Htype Hfrom Hto Rfrom Rto Hd Hw p.
  unfold Flat.renderAction, Stage.renderPacket. cbv zeta.
  rewrite Htype, Hfrom, Hto, Rfrom, Rto. cbn [actionType_eqb andb orb negb].
  replace (f <? DiagramAction.startDelay action) with false
    by (symmetry; apply Z.ltb_ge; lia).
  replace (DiagramAction.startDelay action + DiagramAction.duration action <? f)
    with false by (symmetry; apply Z.ltb_ge; lia).
  rewrite packetProgress_in_window by assumption.
  cbn [interpolateUnit]. fold p. now rewrite !toPx_lerp.
Qed.

(** C4.  While a packet with resolved endpoints and a positive duration is
    rendered, its progress [(frame - startDelay) / duration] lies in
    [[0, 1]] (so the clamp leaves it as it is) and its position is the
    linear interpolation between the anchors of its from-node and its
    to-node, percentages mapped to pixels.  The first packet of the Redis
    scene goes from clientA at (50, 15) to redis at (50, 50) with
    [startDelay = 30] and [duration = 40]: on every canvas it is at (50, 15)
    at frame 30, at (50, 32.5) at frame 50 and at (50, 50) at frame 70. *)
Theorem packet_position :
  (forall nodes action f w h fps i from to,
     DiagramAction.type action = packet ->
     truthy (DiagramAction.fromId action) = true ->
     truthy (DiagramAction.toId action) = true ->
     findNode nodes (DiagramAction.fromId action) = Some from ->
     findNode nodes (DiagramAction.toId action) = Some to ->
     0 < DiagramAction.duration action ->
     DiagramAction.startDelay action <= f
       <= DiagramAction.startDelay action + DiagramAction.duration action ->
     let p := (IZR (f - DiagramAction.startDelay action)
               / IZR (DiagramAction.duration action))%R in
     clamp01 p = p
     /\ Flat.renderAction nodes f w h fps action i
        = Some (Flat.Effect.Packet
                  (Some (toPx (lerp p (DiagramNode.x from) (DiagramNode.x to)) w))
                  (Some (toPx (lerp p (DiagramNode.y from) (DiagramNode.y to)) h))
                  (str_or (DiagramAction.color action) "#ffffff")
                  (str_or (DiagramAction.label action) "DATA"))
     /\ Stage.renderPacket nodes f w h action i
        = Some (Stage.Packet.mk
                  (Some (toPx (lerp p (DiagramNode.x from) (DiagramNode.x to)) w))
                  (Some (toPx (lerp p (DiagramNode.y from) (DiagramNode.y to)) h))
                  (str_or (DiagramAction.color action) "#fff")
                  (if truthy (DiagramAction.label action)
                   then DiagramAction.label action else None)))
  /\ (forall canvas f y,
        (f = 30 /\ y = 15%R) \/ (f = 50 /\ y = 32.5%R) \/ (f = 70 /\ y = 50%R) ->
        option_map (fun r => nth_error (Flat.Render.effects r) 0)
          (Flat.TechScene redisScene (Hooks.mk f canvas))
        = Some (Some (Some (Flat.Effect.Packet
                              (Some (toPx 50 (Canvas.width canvas)))
                              (Some (toPx y (Canvas.height canvas)))
                              "#3b82f6" "SETNX")))
        /\ option_map (fun r => nth_error (Stage.Render.packets r) 0)
             (Stage.TechScene redisScene (Hooks.mk f canvas))
           = Some (Some (Some (Stage.Packet.mk
                                 (Some (toPx 50 (Canvas.width canvas)))
                                 (Some (toPx y (Canvas.height canvas)))
                                 "#3b82f6" (Some "SETNX"))))).
Proof.
  split.
  - intros nodes action f w h fps i from to Htype Hfrom Hto Rfrom Rto Hd Hw p.
    split; [apply clamp01_id; now apply progress_in_window|].
    now apply packet_in_flight.
  - intros canvas f y Hf.
    rewrite Flat_effects_nth, Stage_packets_nth.
    cbn [redisScene SceneData.diagramConfig option_map DiagramConfig.nodes
         DiagramConfig.actions arr_or redisActions nth_error].
    assert (Hw : 30 <= f <= 30 + 40) by lia.
    destruct (packet_in_flight redisNodes
                (DiagramAction.mk packet 30 40 (Some "clientA") (Some "redis")
                   None (Some "SETNX") (Some "#3b82f6"))
                f (Canvas.width canvas) (Canvas.height canvas)
                (Canvas.fps canvas) 0
                (DiagramNode.mk "clientA" client "Client A" 50 15 (Some "#3b82f6"))
                (DiagramNode.mk "redis" database "Redis Master" 50 50
                   (Some "#ef4444"))
                eq_refl eq_refl eq_refl eq_refl eq_refl eq_refl Hw) as [HF HS].
    cbn [Z.of_nat]. rewrite HF, HS.
    cbn [DiagramAction.startDelay DiagramAction.duration DiagramAction.color
         DiagramAction.label DiagramNode.x DiagramNode.y str_or truthy
         String.eqb Ascii.eqb Bool.eqb negb].
    assert (Hy : lerp (IZR (f - 30) / 40) 15 50 = y).
    { unfold lerp. destruct Hf as [[-> ->]|[[-> ->]|[-> ->]]]; simpl; lra. }
    assert (Hx : lerp (IZR (f - 30) / 40) 50 50 = 50%R).
    { unfold lerp. lra. }
    rewrite Hx, Hy. split; reflexivity.
Qed.

Lemma packet_position_witness :
  Flat.renderAction redisNodes 50 1080 1080 30
    (DiagramAction.mk packet 30 40 (Some "clientA") (Some "redis")
       None (Some "SETNX") (Some "#3b82f6")) 0
  = Some (Flat.Effect.Packet
            (Some (toPx (lerp (IZR (50 - 30) / IZR 40) 50 50) 1080))
            (Some (toPx (lerp (IZR (50 - 30) / IZR 40) 15 50) 1080))
            "#3b82f6" "SETNX").
Proof.
  refine (proj1 (proj2 (proj1 packet_position redisNodes
            (DiagramAction.mk packet 30 40 (Some "clientA") (Some "redis")
               None (Some "SETNX") (Some "#3b82f6"))
            50 1080%R 1080%R 30%R 0
            (DiagramNode.mk "clientA" client "Client A" 50 15 (Some "#3b82f6"))
            (DiagramNode.mk "redis" database "Redis Master" 50 50
               (Some "#ef4444"))
            eq_refl eq_refl eq_refl eq_refl eq_refl _ _)));
    simpl; lia.
Defined.

(** A label pops up at [startDelay] and is rendered at every later frame:
    neither renderer reads its [duration]. *)
Lemma label_persists nodes action f w h fps i :
  DiagramAction.type action = show_label ->
  truthy (DiagramAction.targetId action) = true ->
  findNode nodes (DiagramAction.targetId action) <> None ->
  (rendered (Flat.renderAction nodes f w h fps action i) = true
   <-> DiagramAction.startDelay action <= f)
  /\ (rendered (Stage.renderPopup nodes f w h fps action i) = true
      <-> DiagramAction.startDelay action <= f).
Proof.
  intros Htype Htarget Hres.
  unfold Flat.renderAction, Stage.renderPopup. cbv zeta.
  rewrite Htype, Htarget. cbn [actionType_eqb andb orb negb].
  rewrite andb_false_r.
  destruct (findNode nodes (DiagramAction.targetId action)); [|congruence].
  destruct (f <? DiagramAction.startDelay action) eqn:E;
    cbn [rendered]; rewrite ?Z.ltb_lt, ?Z.ltb_ge in E;
    (split; split; intros H; try discriminate; try reflexivity; lia).
Qed.

Lemma label_persists_witness :
  rendered (Flat.renderAction redisNodes 239 1080 1080 30
              (DiagramAction.mk show_label 75 100 None None (Some "redis")
                 (Some "LOCKED") (Some "#ef4444")) 4) = true.
Proof.
  apply (proj1 (label_persists redisNodes
                  (DiagramAction.mk show_label 75 100 None None (Some "redis")
                     (Some "LOCKED") (Some "#ef4444"))
                  239 1080 1080 30 4 eq_refl eq_refl
                  ltac:(simpl; discriminate))).
  simpl. lia.
Defined.

(** ** References that do not resolve *)

Lemma find_skip {A : Type} (p : A -> bool) (a : A) (l1 l2 : list A) :
  p a = false -> find p (l1 ++ a :: l2) = find p (l1 ++ l2).
Proof.
  intros Ha. induction l1 as [|b l1 IH]; simpl.
  - now rewrite Ha.
  - destruct (p b); [reflexivity|assumption].
Qed.

Lemma unresolved_target nodes ref node :
  findNode nodes ref = None -> In node nodes ->
  opt_eqb ref (DiagramNode.id node) = false.
Proof. intros H Hin. exact (find_none _ _ H node Hin). Qed.

Lemma Flat_renderNode_skip data before action after f w h fps node i nodes :
  findNode nodes (DiagramAction.targetId action) = None ->
  In node nodes ->
  Flat.renderNode data (before ++ action :: after) f w h fps node i
  = Flat.renderNode data (before ++ after) f w h fps node i.
Proof.
  intros H Hin. unfold Flat.renderNode, Flat.activeHighlight.
  rewrite find_skip; [reflexivity|].
  rewrite (unresolved_target nodes _ node H Hin).
  now rewrite andb_false_r.
Qed.

Lemma Stage_renderNode_skip before action after f w h fps node i nodes :
  findNode nodes (DiagramAction.targetId action) = None ->
  In node nodes ->
  Stage.renderNode (before ++ action :: after) f w h fps node i
  = Stage.renderNode (before ++ after) f w h fps node i.
Proof.
  intros H Hin. unfold Stage.renderNode, Stage.activeAction.
  rewrite find_skip; [reflexivity|].
  rewrite (unresolved_target nodes _ node H Hin).
  now rewrite andb_false_r.
Qed.

(** C6.  In both renderers and at every frame: an edge one of whose ends
    names no node yields no entry; a packet one of whose ends names no node,
    and a label whose target names no node, yield no entry; a highlight or
    pulse yields no entry of its own, and when its target names no node it
    changes the state of no node of the diagram.  Every case is a value of
    the render functions: there is no failing path. *)
Theorem unresolved_reference_skipped (nodes : list DiagramNode.t)
    (f : Z) (w h fps : R) (i : Z) :
  (forall data edge,
     findNode nodes (Some (DiagramEdge.fromId edge)) = None
     \/ findNode nodes (Some (DiagramEdge.toId edge)) = None ->
     Flat.renderEdge data nodes f w h fps edge i = None
     /\ Stage.renderEdge data nodes f w h fps edge i = None)
  /\ (forall action,
        DiagramAction.type action = packet ->
        findNode nodes (DiagramAction.fromId action) = None
        \/ findNode nodes (DiagramAction.toId action) = None ->
        Flat.renderAction nodes f w h fps action i = None
        /\ Stage.renderPacket nodes f w h action i = None
        /\ Stage.renderPopup nodes f w h fps action i = None)
  /\ (forall action,
        DiagramAction.type action = show_label ->
        findNode nodes (DiagramAction.targetId action) = None ->
        Flat.renderAction nodes f w h fps action i = None
        /\ Stage.renderPacket nodes f w h action i = None
        /\ Stage.renderPopup nodes f w h fps action i = None)
  /\ (forall action,
        DiagramAction.type action = highlight
        \/ DiagramAction.type action = pulse ->
        Flat.renderAction nodes f w h fps action i = None
        /\ Stage.renderPacket nodes f w h action i = None
        /\ Stage.renderPopup nodes f w h fps action i = None
        /\ (findNode nodes (DiagramAction.targetId action) = None ->
            forall data before after node j, In node nodes ->
              Flat.renderNode data (before ++ action :: after) f w h fps node j
              = Flat.renderNode data (before ++ after) f w h fps node j
              /\ Stage.renderNode (before ++ action :: after) f w h fps node j
                 = Stage.renderNode (before ++ after) f w h fps node j)).
Proof.
  repeat apply conj.
  - intros data edge H. unfold Flat.renderEdge, Stage.renderEdge.
    destruct (findNode nodes (Some (DiagramEdge.fromId edge)));
      destruct (findNode nodes (Some (DiagramEdge.toId edge)));
      destruct H; try discriminate; split; reflexivity.
  - intros action Htype H.
    unfold Flat.renderAction, Stage.renderPacket, Stage.renderPopup. cbv zeta.
    rewrite Htype. cbn [actionType_eqb andb orb negb].
    repeat apply conj; [| |reflexivity].
    + destruct (f <? _); [reflexivity|]. destruct (_ <? f); [reflexivity|].
      destruct (truthy _ && truthy _); [|reflexivity].
      destruct (findNode nodes (DiagramAction.fromId action));
        destruct (findNode nodes (DiagramAction.toId action));
        destruct H; try discriminate; reflexivity.
    + destruct (_ || _); [reflexivity|].
      destruct (f <? _); [reflexivity|]. destruct (_ <? f); [reflexivity|].
      destruct (findNode nodes (DiagramAction.fromId action));
        destruct (findNode nodes (DiagramAction.toId action));
        destruct H; try discriminate; reflexivity.
  - intros action Htype H.
    unfold Flat.renderAction, Stage.renderPacket, Stage.renderPopup. cbv zeta.
    rewrite Htype, H. cbn [actionType_eqb andb orb negb].
    repeat apply conj; [|reflexivity|].
    + destruct (f <? _); [reflexivity|]. rewrite andb_false_r.
      destruct (truthy _); reflexivity.
    + destruct (negb _); [reflexivity|]. destruct (f <? _); reflexivity.
  - intros action Htype.
    unfold Flat.renderAction, Stage.renderPacket, Stage.renderPopup. cbv zeta.
    repeat apply conj.
    + destruct Htype as [-> | ->]; cbn [actionType_eqb andb orb negb];
        rewrite andb_false_r; destruct (f <? _); reflexivity.
    + destruct Htype as [-> | ->]; reflexivity.
    + destruct Htype as [-> | ->]; reflexivity.
    + intros H data before after node j Hin. split.
      * now apply Flat_renderNode_skip with (nodes := nodes).
      * now apply Stage_renderNode_skip with (nodes := nodes).
Qed.

Lemma unresolved_reference_skipped_witness :
  Flat.renderEdge redisScene redisNodes 100 1080 1080 30
    (DiagramEdge.mk "clientA" "ghost" None None) 0 = None
  /\ Stage.renderEdge redisScene redisNodes 100 1080 1080 30
       (DiagramEdge.mk "clientA" "ghost" None None) 0 = None.
Proof.
  apply (proj1 (unresolved_reference_skipped redisNodes 100 1080 1080 30 0)).
  right. reflexivity.
Defined.

(** ** The breakpoints of the standard layout *)

Lemma trapezoid (f d : Z) :
  20 < d ->
  interpolate (IZR f) [0%R; 10%R; IZR (d - 10); IZR d] [0%R; 1%R; 1%R; 0%R]
  = Some (if f <=? 10 then (IZR f / 10)%R
          else if f <=? d - 10 then 1%R
          else (IZR (d - f) / 10)%R).
Proof.
  intros Hd. unfold interpolate.
  cbn [List.length Nat.eqb negb strictly_increasing].
  assert (H1 : (10 < IZR (d - 10))%R) by (apply IZR_lt; lia).
  assert (H2 : (IZR (d - 10) < IZR d)%R) by (apply IZR_lt; lia).
  destruct (Rlt_dec 0 10) as [_|N]; [|exfalso; lra].
  destruct (Rlt_dec 10 (IZR (d - 10))) as [_|N]; [|contradiction].
  destruct (Rlt_dec (IZR (d - 10)) (IZR d)) as [_|N]; [|contradiction].
  cbn [negb combine interpolate_from]. f_equal.
  destruct (Rle_dec (IZR f) 10) as [L|L].
  - apply le_IZR in L. replace (f <=? 10) with true
      by (symmetry; apply Z.leb_le; lia).
    unfold lerp_range, lerp. replace (10 - 0)%R with 10%R by lra. lra.
  - assert (10 < f) by (apply Z.nle_gt; intros C; apply L, IZR_le, C).
    replace (f <=? 10) with false by (symmetry; apply Z.leb_gt; lia).
    destruct (Rle_dec (IZR f) (IZR (d - 10))) as [M|M].
    + apply le_IZR in M. replace (f <=? d - 10) with true
        by (symmetry; apply Z.leb_le; lia).
      unfold lerp_range, lerp. lra.
    + assert (d - 10 < f) by (apply Z.nle_gt; intros C; apply M, IZR_le, C).
      replace (f <=? d - 10) with false by (symmetry; apply Z.leb_gt; lia).
      unfold lerp_range, lerp. rewrite !minus_IZR. field. lra.
Qed.

(** For a scene of 20 frames or fewer the breakpoints are not increasing
    and [interpolate] rejects them. *)
Lemma breakpoints_rejected (f d : Z) :
  d <= 20 ->
  interpolate (IZR f) [0%R; 10%R; IZR (d - 10); IZR d] [0%R; 1%R; 1%R; 0%R]
  = None.
Proof.
  intros Hd. unfold interpolate.
  cbn [List.length Nat.eqb negb strictly_increasing].
  destruct (Rlt_dec 0 10) as [_|N]; [|exfalso; lra].
  destruct (Rlt_dec 10 (IZR (d - 10))) as [L|_]; [|reflexivity].
  apply lt_IZR in L. lia.
Qed.

Lemma not_tech_diagram ty :
  ty <> tech_diagram -> sceneType_eqb ty tech_diagram = false.
Proof. destruct ty; try reflexivity; congruence. Qed.

Lemma Scene_layout {T : Type} (TechScene : SceneData.t -> Hooks.t -> option T)
    data env :
  SceneData.type data <> tech_diagram ->
  20 < SceneData.durationInFrames data ->
  exists r, Scene TechScene data env = SceneRender.Layout r
            /\ Standard.title r = SceneData.title data
            /\ Standard.subtitle r = SceneData.subtitle data.
Proof.
  intros Hty Hd. unfold Scene. rewrite (not_tech_diagram _ Hty). cbv zeta.
  rewrite trapezoid by assumption. eexists. repeat split.
Qed.

Lemma Scene_throws {T : Type} (TechScene : SceneData.t -> Hooks.t -> option T)
    data env :
  SceneData.type data <> tech_diagram ->
  SceneData.durationInFrames data <= 20 ->
  Scene TechScene data env = SceneRender.Throws.
Proof.
  intros Hty Hd. unfold Scene. rewrite (not_tech_diagram _ Hty). cbv zeta.
  now rewrite breakpoints_rejected.
Qed.


Lemma Scene_diagram {T : Type} (TechScene : SceneData.t -> Hooks.t -> option T)
    data env :
  SceneData.type data = tech_diagram ->
  Scene TechScene data env = SceneRender.Diagram (TechScene data env).
Proof. intros Hty. unfold Scene. now rewrite Hty. Qed.

(** ** A diagram scene without its diagram *)

Lemma countRendered_none {A B : Type} (f : A -> Z -> option B) (l : list A) :
  (forall a i, f a i = None) -> countRendered (mapi f l) = 0%nat.
Proof.
  intros H. unfold countRendered, mapi. generalize 0.
  induction l as [|a l IH]; intros i; simpl; [reflexivity|].
  rewrite H. simpl. apply IH.
Qed.

Lemma Flat_renderAction_no_nodes f w h fps action i :
  Flat.renderAction [] f w h fps action i = None.
Proof.
  unfold Flat.renderAction. cbv zeta. cbn [findNode find].
  repeat match goal with |- context [if ?b then _ else _] => destruct b end;
    reflexivity.
Qed.

Lemma Stage_renderPacket_no_nodes f w h action i :
  Stage.renderPacket [] f w h action i = None.
Proof.
  unfold Stage.renderPacket. cbv zeta. cbn [findNode find].
  repeat match goal with |- context [if ?b then _ else _] => destruct b end;
    reflexivity.
Qed.

Lemma Stage_renderPopup_no_nodes f w h fps action i :
  Stage.renderPopup [] f w h fps action i = None.
Proof.
  unfold Stage.renderPopup. cbv zeta. cbn [findNode find].
  repeat match goal with |- context [if ?b then _ else _] => destruct b end;
    reflexivity.
Qed.

Lemma Flat_no_nodes_drawn data env c :
  SceneData.diagramConfig data = Some c ->
  arr_or (DiagramConfig.nodes c) = [] ->
  exists r, Flat.TechScene data env = Some r
            /\ Flat.Render.nodes r = []
            /\ Flat_drawn r = 0%nat.
Proof.
  intros Hc Hn. unfold Flat.TechScene. rewrite Hc. cbv beta iota zeta.
  rewrite Hn. eexists. split; [reflexivity|]. split; [reflexivity|].
  unfold Flat_drawn.
  cbn [Flat.Render.nodes Flat.Render.edges Flat.Render.effects].
  rewrite !countRendered_none; try reflexivity; intros a i.
  all: first [apply Flat_renderAction_no_nodes | reflexivity].
Qed.

Lemma Stage_no_nodes_drawn data env c :
  SceneData.diagramConfig data = Some c ->
  arr_or (DiagramConfig.nodes c) = [] ->
  exists r, Stage.TechScene data env = Some r
            /\ Stage.Render.nodes r = []
            /\ Stage_drawn r = 0%nat.
Proof.
  intros Hc Hn. unfold Stage.TechScene. rewrite Hc. cbv beta iota zeta.
  rewrite Hn. eexists. split; [reflexivity|]. split; [reflexivity|].
  unfold Stage_drawn.
  cbn [Stage.Render.nodes Stage.Render.edges Stage.Render.packets
       Stage.Render.popups].
  rewrite !countRendered_none; try reflexivity; intros a i.
  all: first [apply Stage_renderPopup_no_nodes
             | apply Stage_renderPacket_no_nodes | reflexivity].
Qed.

(** C7, against the claim: a [tech_diagram] scene of 90 frames that carries
    no [diagramConfig].  At frame 12 both sources of the diagram renderer
    return [null]: the scene yields no render result, and so no empty
    diagram either. *)
Lemma absent_diagram_renders_null :
  SceneData.type (plainScene tech_diagram 90) = tech_diagram
  /\ SceneData.diagramConfig (plainScene tech_diagram 90) = None
  /\ Scene Flat.TechScene (plainScene tech_diagram 90)
       (playerEnv INITIAL_DATA 12) = SceneRender.Diagram None
  /\ Scene Stage.TechScene (plainScene tech_diagram 90)
       (playerEnv INITIAL_DATA 12) = SceneRender.Diagram None
  /\ ~ (exists r, Flat.TechScene (plainScene tech_diagram 90)
                    (playerEnv INITIAL_DATA 12) = Some r)
  /\ ~ (exists r, Stage.TechScene (plainScene tech_diagram 90)
                    (playerEnv INITIAL_DATA 12) = Some r).
Proof.
  repeat apply conj; try reflexivity; intros [r Hr]; discriminate Hr.
Qed.

(** C7, as the code has it.  For a [tech_diagram] scene, at every frame and
    on every canvas, in both sources of the diagram renderer:
    - with the [diagramConfig] absent the renderer returns [null], and only
      then: nothing fails, but there is no render result;
    - with a [diagramConfig] present there is a render result, and an array
      missing from the configuration is read as the empty array;
    - a configuration without a (non-empty) [nodes] array gives the empty
      diagram: a render result with no node, no edge and no action effect,
      also after either post-processing pass;
    - the pass of unnamed/part_001 replaces an absent configuration by the
      empty one, which then renders as a diagram with no entry at all;
    - the pass of services/geminiService.ts turns a scene without a
      configuration into a [bullet_point], which the standard layout
      renders when the scene lasts more than 20 frames. *)
Theorem missing_diagram_degrades (data : SceneData.t) (env : Hooks.t)
    (Htype : SceneData.type data = tech_diagram) :
  (SceneData.diagramConfig data = None
   <-> Scene Flat.TechScene data env = SceneRender.Diagram None)
  /\ (SceneData.diagramConfig data = None
      <-> Scene Stage.TechScene data env = SceneRender.Diagram None)
  /\ (forall c, SceneData.diagramConfig data = Some c ->
        (exists r, Scene Flat.TechScene data env = SceneRender.Diagram (Some r))
        /\ (exists r, Scene Stage.TechScene data env
                      = SceneRender.Diagram (Some r))
        /\ Flat.TechScene data env
           = Flat.TechScene (setDiagramConfig data (withArrays c)) env
        /\ Stage.TechScene data env
           = Stage.TechScene (setDiagramConfig data (withArrays c)) env)
  /\ (forall c, SceneData.diagramConfig data = Some c ->
        arr_or (DiagramConfig.nodes c) = [] ->
        forall pass, pass = (fun s => s) \/ pass = downgradeScene
                     \/ pass = substituteScene ->
        (exists r, Scene Flat.TechScene (pass data) env
                   = SceneRender.Diagram (Some r)
                   /\ Flat.Render.nodes r = []
                   /\ Flat_drawn r = 0%nat)
        /\ (exists r, Scene Stage.TechScene (pass data) env
                      = SceneRender.Diagram (Some r)
                      /\ Stage.Render.nodes r = []
                      /\ Stage_drawn r = 0%nat))
  /\ (SceneData.diagramConfig data = None ->
      (exists r, Scene Flat.TechScene (substituteScene data) env
                 = SceneRender.Diagram (Some r)
                 /\ Flat.Render.nodes r = []
                 /\ Flat.Render.edges r = []
                 /\ Flat.Render.effects r = [])
      /\ (exists r, Scene Stage.TechScene (substituteScene data) env
                    = SceneRender.Diagram (Some r)
                    /\ Stage.Render.nodes r = []
                    /\ Stage.Render.edges r = []
                    /\ Stage.Render.packets r = []
                    /\ Stage.Render.popups r = []))
  /\ (SceneData.diagramConfig data = None ->
      SceneData.type (downgradeScene data) = bullet_point
      /\ (20 < SceneData.durationInFrames data ->
          (exists r, Scene Flat.TechScene (downgradeScene data) env
                     = SceneRender.Layout r
                     /\ Standard.title r = SceneData.title data)
          /\ (exists r, Scene Stage.TechScene (downgradeScene data) env
                        = SceneRender.Layout r
                        /\ Standard.title r = SceneData.title data))).
Proof.
  split; [|split; [|split; [|split; [|split]]]].
  - rewrite Scene_diagram by assumption. unfold Flat.TechScene.
    destruct (SceneData.diagramConfig data); split; intros H;
      first [discriminate H | reflexivity].
  - rewrite Scene_diagram by assumption. unfold Stage.TechScene.
    destruct (SceneData.diagramConfig data); split; intros H;
      first [discriminate H | reflexivity].
  - intros c Hc. rewrite !Scene_diagram by assumption.
    unfold Flat.TechScene, Stage.TechScene. rewrite Hc.
    repeat apply conj; try reflexivity; eexists; reflexivity.
  - intros c Hc Hn pass Hpass.
    assert (Hp : SceneData.type (pass data) = tech_diagram
                 /\ exists c', SceneData.diagramConfig (pass data) = Some c'
                               /\ arr_or (DiagramConfig.nodes c') = []).
    { destruct Hpass as [-> | [-> | ->]].
      - split; [assumption|]. now exists c.
      - unfold downgradeScene. rewrite Htype, Hc. cbn.
        split; [assumption|]. eexists. split; [reflexivity|]. cbn.
        now rewrite Hn.
      - unfold substituteScene. rewrite Htype, Hc. cbn.
        split; [assumption|]. eexists. split; [reflexivity|]. cbn.
        now rewrite Hn. }
    destruct Hp as (Hty & c' & Hc' & Hn').
    rewrite !Scene_diagram by assumption.
    destruct (Flat_no_nodes_drawn (pass data) env c' Hc' Hn')
      as (rf & -> & Hf).
    destruct (Stage_no_nodes_drawn (pass data) env c' Hc' Hn')
      as (rs & -> & Hs).
    split; eexists; (split; [reflexivity|assumption]).
  - intros Hnone.
    assert (Hty : SceneData.type (substituteScene data) = tech_diagram).
    { unfold substituteScene. now rewrite Htype. }
    rewrite !Scene_diagram by assumption.
    unfold substituteScene. rewrite Htype, Hnone. cbn.
    split; eexists; repeat split.
  - intros Hnone.
    assert (Hdown : downgradeScene data = setType data bullet_point).
    { unfold downgradeScene. now rewrite Htype, Hnone. }
    rewrite Hdown. split; [reflexivity|]. intros Hd.
    split.
    + destruct (Scene_layout Flat.TechScene (setType data bullet_point) env)
        as (r & Hr & Ht & _);
        [cbn; discriminate | cbn; assumption | exists r; now split].
    + destruct (Scene_layout Stage.TechScene (setType data bullet_point) env)
        as (r & Hr & Ht & _);
        [cbn; discriminate | cbn; assumption | exists r; now split].
Qed.

Lemma missing_diagram_degrades_witness :
  exists r,
    Scene Stage.TechScene
      (SceneData.mk "Queue" "Without nodes" "#0f172a" "#e2e8f0" 90
         tech_diagram
         (Some (DiagramConfig.mk None (Some redisEdges) (Some redisActions))))
      (playerEnv INITIAL_DATA 80)
    = SceneRender.Diagram (Some r)
    /\ Stage.Render.nodes r = []
    /\ Stage_drawn r = 0%nat.
Proof.
  apply (proj2 (proj1 (proj2 (proj2 (proj2
           (missing_diagram_degrades
              (SceneData.mk "Queue" "Without nodes" "#0f172a" "#e2e8f0" 90
                 tech_diagram
                 (Some (DiagramConfig.mk None (Some redisEdges)
                          (Some redisActions))))
              (playerEnv INITIAL_DATA 80) eq_refl))))
           _ eq_refl eq_refl (fun s => s) (or_introl eq_refl))).
Defined.

(** ** Emphasis of a targeted node *)

Lemma lerp_unit e : lerp e 0 1 = e.
Proof. unfold lerp. lra. Qed.

Lemma spring_rest frame fps config :
  frame <= 0 -> spring frame fps config = 0%R.
Proof.
  intros H. unfold spring, spring_at.
  replace (Z.to_nat frame) with O by lia. reflexivity.
Qed.

(** C10, against the claim: in the tilted-stage renderer the one node of a
    diagram, highlighted from frame 0 on, has entrance scale 0 at frame 0 and
    rendered scale 0.15; no factor applied to the entrance scale gives that. *)
Lemma emphasis_not_multiplicative :
  spring (0 - 0 * 5) 30 (SpringConfig.mk (Some 100%R) (Some 12%R) None) = 0%R
  /\ Stage.Node.scale
       (Stage.renderNode [soloHighlight] 0 1080 1080 30 soloNode 0) = 0.15%R
  /\ ~ exists factor : R,
         Stage.Node.scale
           (Stage.renderNode [soloHighlight] 0 1080 1080 30 soloNode 0)
         = (spring (0 - 0 * 5) 30
              (SpringConfig.mk (Some 100%R) (Some 12%R) None) * factor)%R.
Proof.
  assert (H0 : spring (0 - 0 * 5) 30
                 (SpringConfig.mk (Some 100%R) (Some 12%R) None) = 0%R)
    by (apply spring_rest; lia).
  assert (Hs : Stage.Node.scale
                 (Stage.renderNode [soloHighlight] 0 1080 1080 30 soloNode 0)
               = 0.15%R).
  { unfold Stage.renderNode. cbn [Stage.Node.scale]. rewrite H0.
    cbn. unfold lerp. lra. }
  repeat split; try assumption.
  intros [factor H]. rewrite Hs, H0 in H. lra.
Qed.

(** C10, as the code has it.  The flat renderer multiplies the entrance scale
    of a node by 1.2 while a highlight action targets it, and by 1 otherwise:
    a pulse has no effect there.  The tilted-stage renderer adds to the
    entrance scale: 0.15 while a highlight or pulse action targets the node,
    and for a pulse also the oscillation
    [0.1 * sin (0.5 * (frame - startDelay))]. *)
Theorem emphasis_scale (data : SceneData.t) (actions : list DiagramAction.t)
    (f : Z) (w h fps : R) (node : DiagramNode.t) (i : Z) :
  let popIn := spring (f - i * 10) fps
                 (SpringConfig.mk (Some 200%R) (Some 15%R) None) in
  let entrance := spring (f - i * 5) fps
                    (SpringConfig.mk (Some 100%R) (Some 12%R) None) in
  ((exists a, In a actions
        /\ DiagramAction.type a = highlight
        /\ DiagramAction.targetId a = Some (DiagramNode.id node)
        /\ DiagramAction.startDelay a <= f
             < DiagramAction.startDelay a + DiagramAction.duration a) ->
   Flat.Node.scale (Flat.renderNode data actions f w h fps node i)
   = (popIn * 1.2)%R)
  /\ ((forall a, In a actions ->
         DiagramAction.targetId a = Some (DiagramNode.id node) ->
         DiagramAction.startDelay a <= f
           < DiagramAction.startDelay a + DiagramAction.duration a ->
         DiagramAction.type a <> highlight) ->
      Flat.Node.scale (Flat.renderNode data actions f w h fps node i) = popIn)
  /\ (forall a, Stage.activeAction actions node f = Some a ->
        (In a actions
         /\ (DiagramAction.type a = highlight \/ DiagramAction.type a = pulse)
         /\ DiagramAction.targetId a = Some (DiagramNode.id node)
         /\ DiagramAction.startDelay a <= f
              < DiagramAction.startDelay a + DiagramAction.duration a)
        /\ Stage.Node.scale (Stage.renderNode actions f w h fps node i)
           = (entrance + 0.15
              + (if actionType_eqb (DiagramAction.type a) pulse
                 then sin (IZR (f - DiagramAction.startDelay a) * 0.5) * 0.1
                 else 0))%R)
  /\ (Stage.activeAction actions node f = None ->
      Stage.Node.scale (Stage.renderNode actions f w h fps node i) = entrance).
Proof.
  intros popIn entrance. repeat apply conj.
  - intros H. apply Flat_activeHighlight_iff in H. destruct H as [a Ha].
    unfold Flat.renderNode. cbn [Flat.Node.scale]. rewrite Ha, lerp_unit.
    reflexivity.
  - intros H. unfold Flat.renderNode. cbn [Flat.Node.scale].
    destruct (Flat.activeHighlight actions node f) as [a|] eqn:E.
    + exfalso. apply find_some in E. destruct E as [Hin Hp].
      rewrite !andb_true_iff, actionType_eqb_eq, opt_eqb_eq, inWindow_iff in Hp.
      destruct Hp as [[Hty Htg] Hw]. exact (H a Hin Htg Hw Hty).
    + rewrite lerp_unit. fold popIn. lra.
  - intros a Ha. split.
    + pose proof Ha as Hf. unfold Stage.activeAction in Hf.
      apply find_some in Hf. destruct Hf as [Hin Hp].
      rewrite !andb_true_iff, orb_true_iff, !actionType_eqb_eq, opt_eqb_eq,
        inWindow_iff in Hp. tauto.
    + unfold Stage.renderNode. cbn [Stage.Node.scale].
      rewrite Ha, lerp_unit. unfold Stage.pulseScale. reflexivity.
  - intros Hnone. unfold Stage.renderNode. cbn [Stage.Node.scale].
    rewrite Hnone, lerp_unit. unfold Stage.pulseScale. fold entrance. lra.
Qed.

Lemma emphasis_scale_witness :
  Flat.Node.scale
    (Flat.renderNode redisScene [soloHighlight] 3 1080 1080 30 soloNode 0)
  = (spring (3 - 0 * 10) 30 (SpringConfig.mk (Some 200%R) (Some 15%R) None)
     * 1.2)%R.
Proof.
  apply (proj1 (emphasis_scale redisScene [soloHighlight] 3 1080 1080 30
                  soloNode 0)).
  exists soloHighlight. simpl. repeat split; auto; lia.
Defined.

(** ** The spring *)

Local Open Scope R_scope.

Lemma exp_decay x : 0 < x -> exp (- x) < 1.
Proof.
  intros Hx. rewrite <- exp_0. apply exp_increasing. lra.
Qed.

Lemma exp_decay_le x : 0 <= x -> exp (- x) <= 1.
Proof.
  intros [Hx| <-]; [left; now apply exp_decay|].
  rewrite Ropp_0, exp_0. lra.
Qed.

(** [exp (- x) * (1 + x) < 1]: the factor by which a critically damped step
    shrinks the displacement, at most. *)
Lemma critical_factor x : 0 < x -> 0 < exp (- x) * (1 + x) < 1.
Proof.
  intros Hx. pose proof (exp_pos (- x)) as He.
  split; [apply Rmult_lt_0_compat; lra|].
  assert (H1 : 1 + x < exp x) by (apply exp_ineq1; lra).
  assert (H2 : exp (- x) * exp x = 1).
  { rewrite <- exp_plus. replace (- x + x) with 0 by lra. apply exp_0. }
  apply Rlt_le_trans with (exp (- x) * exp x);
    [apply Rmult_lt_compat_l; assumption|lra].
Qed.

(** The chord of [1 - exp (- t)] from 0: for [0 < p <= q],
    [p * (1 - exp (- q * h)) <= q * (1 - exp (- p * h))]. *)
Lemma decay_chord p q h :
  0 < p -> p <= q -> 0 <= h ->
  p * (1 - exp (- (q * h))) <= q * (1 - exp (- (p * h))).
Proof.
  intros Hp Hpq Hh.
  pose proof (exp_pos (- (p * h))) as Ec.
  (* tangent lines of exp at - p * h *)
  assert (T1 : exp (- (p * h)) * (1 - (q - p) * h) <= exp (- (q * h))).
  { pose proof (exp_ineq1_le (- (q * h) + p * h)) as T.
    replace (exp (- (q * h))) with (exp (- (p * h)) * exp (- (q * h) + p * h)).
    - apply Rmult_le_compat_l; lra.
    - rewrite <- exp_plus. f_equal. lra. }
  assert (T2 : exp (- (p * h)) * (1 + p * h) <= 1).
  { pose proof (exp_ineq1_le (p * h)) as T.
    replace 1 with (exp (- (p * h)) * exp (p * h)) at 2.
    - apply Rmult_le_compat_l; lra.
    - rewrite <- exp_plus. replace (- (p * h) + p * h) with 0 by lra.
      apply exp_0. }
  assert (H1 : p * (exp (- (p * h)) * (1 - (q - p) * h)) <= p * exp (- (q * h)))
    by (apply Rmult_le_compat_l; lra).
  assert (H2 : (q - p) * (exp (- (p * h)) * (1 + p * h)) <= (q - p) * 1)
    by (apply Rmult_le_compat_l; lra).
  nra.
Qed.

Lemma displacement_displaced u w : displacement (displaced u w) = u.
Proof. unfold displacement, displaced. simpl. lra. Qed.

Lemma slope_displaced u w : slope (displaced u w) = w.
Proof. unfold slope, displaced. simpl. lra. Qed.

Lemma velocity_displaced u w : Oscillator.velocity (displaced u w) = - w.
Proof. reflexivity. Qed.

(** *** Critical damping *)

Lemma stepCritical_rising w0 h s :
  0 < w0 -> 0 < h -> risingCritical w0 s ->
  risingCritical w0 (stepCritical w0 h s)
  /\ 0 <= displacement (stepCritical w0 h s)
       <= exp (- (w0 * h)) * (1 + w0 * h) * displacement s.
Proof.
  intros Hw0 Hh [Hv Hq]. unfold risingCritical, stepCritical. cbv zeta.
  rewrite velocity_displaced, displacement_displaced.
  unfold slope. set (u := displacement s) in *.
  set (v := Oscillator.velocity s) in *.
  replace (- w0 * h) with (- (w0 * h)) by lra.
  pose proof (exp_pos (- (w0 * h))) as HE. set (E := exp (- (w0 * h))) in *.
  assert (Hu : 0 <= u) by nra.
  assert (Hwh : 0 < w0 * h) by nra.
  assert (Hqh : 0 <= (w0 * u - v) * h) by nra.
  repeat split.
  - replace (- (E * (- v - w0 * (- v + w0 * u) * h)))
      with (E * (v + w0 * ((w0 * u - v) * h))) by lra.
    apply Rmult_le_pos; nra.
  - replace (- (E * (- v - w0 * (- v + w0 * u) * h)))
      with (E * (v + w0 * ((w0 * u - v) * h))) by lra.
    replace (w0 * (E * (u + (- v + w0 * u) * h)))
      with (E * (w0 * u + w0 * ((w0 * u - v) * h))) by lra.
    apply Rmult_le_compat_l; lra.
  - apply Rmult_le_pos; [lra|]. nra.
  - replace (E * (1 + w0 * h) * u) with (E * (u + w0 * u * h)) by lra.
    apply Rmult_le_compat_l; [lra|]. nra.
Qed.

(** *** Over-damping *)

Lemma overdamped_rates zeta w0 :
  1 < zeta -> 0 < w0 ->
  0 < w0 * sqrt (zeta * zeta - 1)
  /\ fastRate zeta w0 < slowRate zeta w0 < 0.
Proof.
  intros Hz Hw0.
  assert (Hpos : 0 < zeta * zeta - 1) by nra.
  assert (Hs : 0 < sqrt (zeta * zeta - 1)) by now apply sqrt_lt_R0.
  assert (Hlt : sqrt (zeta * zeta - 1) < zeta).
  { apply Rlt_le_trans with (sqrt (zeta * zeta)).
    - apply sqrt_lt_1; nra.
    - rewrite sqrt_square; lra. }
  unfold fastRate, slowRate. repeat split; nra.
Qed.

Lemma slow_fast_parts zeta w0 s :
  1 < zeta -> 0 < w0 ->
  slowPart zeta w0 s + fastPart zeta w0 s = displacement s
  /\ slowRate zeta w0 * slowPart zeta w0 s
     + fastRate zeta w0 * fastPart zeta w0 s = slope s.
Proof.
  intros Hz Hw0. destruct (overdamped_rates zeta w0 Hz Hw0) as [Hw2 _].
  unfold slowPart, fastPart, slowRate, fastRate.
  set (w2 := w0 * sqrt (zeta * zeta - 1)) in *.
  split; field; lra.
Qed.

Lemma stepOverDamped_parts zeta w0 h s :
  1 < zeta -> 0 < w0 ->
  slowPart zeta w0 (stepOverDamped zeta w0 h s)
  = slowPart zeta w0 s * exp (slowRate zeta w0 * h)
  /\ fastPart zeta w0 (stepOverDamped zeta w0 h s)
     = fastPart zeta w0 s * exp (fastRate zeta w0 * h).
Proof.
  intros Hz Hw0. destruct (overdamped_rates zeta w0 Hz Hw0) as [Hw2 _].
  unfold stepOverDamped. cbv zeta.
  set (A := slowPart zeta w0 s). set (B := fastPart zeta w0 s).
  unfold slowPart, fastPart.
  rewrite displacement_displaced, slope_displaced.
  unfold slowRate, fastRate.
  set (w2 := w0 * sqrt (zeta * zeta - 1)) in *.
  split; field; lra.
Qed.

Lemma stepOverDamped_rising zeta w0 h s :
  1 < zeta -> 0 < w0 -> 0 < h -> risingOverDamped zeta w0 s ->
  risingOverDamped zeta w0 (stepOverDamped zeta w0 h s)
  /\ displacement (stepOverDamped zeta w0 h s) <= displacement s.
Proof.
  intros Hz Hw0 Hh (HA & HB & Hu & Hv).
  destruct (overdamped_rates zeta w0 Hz Hw0) as [Hw2 [Hr21 Hr1]].
  destruct (slow_fast_parts zeta w0 s Hz Hw0) as [Hsum Hslope].
  destruct (stepOverDamped_parts zeta w0 h s Hz Hw0) as [HA' HB'].
  unfold risingOverDamped. rewrite HA', HB'.
  unfold stepOverDamped. cbv zeta.
  rewrite displacement_displaced, velocity_displaced.
  unfold slope in Hslope.
  set (A := slowPart zeta w0 s) in *. set (B := fastPart zeta w0 s) in *.
  set (r1 := slowRate zeta w0) in *. set (r2 := fastRate zeta w0) in *.
  set (u := displacement s) in *. set (v := Oscillator.velocity s) in *.
  pose proof (exp_pos (r1 * h)) as He1. pose proof (exp_pos (r2 * h)) as He2.
  assert (He21 : exp (r2 * h) <= exp (r1 * h)).
  { left. apply exp_increasing. nra. }
  assert (He1' : exp (r1 * h) <= 1).
  { replace (r1 * h) with (- (- r1 * h)) by lra. apply exp_decay_le. nra. }
  set (e1 := exp (r1 * h)) in *. set (e2 := exp (r2 * h)) in *.
  repeat split.
  - apply Rmult_le_pos; lra.
  - nra.
  - (* 0 <= A e1 + B e2 *)
    assert (H1 : (- B) * e2 <= (- B) * e1)
      by (apply Rmult_le_compat_l; lra).
    assert (H2 : 0 <= (A + B) * e1) by (apply Rmult_le_pos; lra).
    lra.
  - (* 0 <= - (r1 A e1 + r2 B e2) *)
    assert (H0 : 0 <= r2 * B) by nra.
    assert (H1 : r2 * B * e2 <= r2 * B * e1)
      by (apply Rmult_le_compat_l; lra).
    assert (H2 : 0 <= v * e1) by (apply Rmult_le_pos; lra).
    replace (r1 * A * e1) with ((- v - r2 * B) * e1) by (rewrite <- Hslope; lra).
    lra.
  - (* A e1 + B e2 <= u *)
    pose proof (decay_chord (- r1) (- r2) h) as Hc.
    replace (- (- r2 * h)) with (r2 * h) in Hc by lra.
    replace (- (- r1 * h)) with (r1 * h) in Hc by lra.
    fold e1 e2 in Hc. specialize (Hc ltac:(lra) ltac:(lra) ltac:(lra)).
    (* q (-B) <= p A, and p (1 - e2) <= q (1 - e1) *)
    assert (H1 : - r2 * (- B) <= - r1 * A) by lra.
    assert (H2 : (- B) * (- r1 * (1 - e2)) <= (- B) * (- r2 * (1 - e1)))
      by (apply Rmult_le_compat_l; lra).
    assert (H3 : (1 - e1) * (- r2 * (- B)) <= (1 - e1) * (- r1 * A))
      by (apply Rmult_le_compat_l; lra).
    assert (H4 : - r1 * ((- B) * (1 - e2)) <= - r1 * (A * (1 - e1))) by nra.
    assert (H5 : (- B) * (1 - e2) <= A * (1 - e1)).
    { apply Rmult_le_reg_l with (- r1); lra. }
    nra.
Qed.

(** *** Any number of steps *)

Lemma advance_critical k c m h s :
  dampingRatio k c m = 1 ->
  advance k c m h s = stepCritical (omega0 k m) h s.
Proof.
  intros Hz. unfold advance. cbv zeta. rewrite Hz.
  destruct (Rlt_dec 1 1); [lra|]. destruct (Rle_dec 1 1); [reflexivity|lra].
Qed.

Lemma advance_overdamped k c m h s :
  1 < dampingRatio k c m ->
  advance k c m h s = stepOverDamped (dampingRatio k c m) (omega0 k m) h s.
Proof.
  intros Hz. unfold advance. cbv zeta.
  destruct (Rlt_dec (dampingRatio k c m) 1); [lra|].
  destruct (Rle_dec (dampingRatio k c m) 1); [lra|reflexivity].
Qed.

Lemma omega0_pos k m : 0 < k -> 0 < m -> 0 < omega0 k m.
Proof.
  intros Hk Hm. unfold omega0. apply sqrt_lt_R0.
  apply Rdiv_lt_0_compat; assumption.
Qed.

Lemma at_rest_critical w0 : 0 < w0 -> risingCritical w0 at_rest.
Proof.
  intros H. unfold risingCritical, displacement, at_rest. simpl. lra.
Qed.

Lemma at_rest_overdamped zeta w0 :
  1 < zeta -> 0 < w0 -> risingOverDamped zeta w0 at_rest.
Proof.
  intros Hz Hw0.
  destruct (overdamped_rates zeta w0 Hz Hw0) as [Hw2 [Hr21 Hr1]].
  unfold risingOverDamped, slowPart, fastPart, displacement, slope, at_rest.
  simpl. set (w2 := w0 * sqrt (zeta * zeta - 1)) in *.
  assert (H2 : 0 < / (2 * w2)) by (apply Rinv_0_lt_compat; lra).
  unfold Rdiv. repeat split; try lra.
  - apply Rmult_le_pos; lra.
  - assert (0 <= - (slowRate zeta w0 * (1 - 0) - - 0) * / (2 * w2))
      by (apply Rmult_le_pos; lra).
    lra.
Qed.

(** With a damping ratio of at least 1, every step takes the progress up,
    never past 1, and what is left to the target is bounded by a geometric
    sequence. *)
Lemma oscillate_rising k c m h :
  0 < k -> 0 < m -> 0 < h -> 1 <= dampingRatio k c m ->
  (forall n, 0 <= displacement (oscillate k c m h (S n))
               <= displacement (oscillate k c m h n))
  /\ exists C rho, 0 <= C /\ 0 <= rho < 1
       /\ forall n, displacement (oscillate k c m h n) <= C * rho ^ n.
Proof.
  intros Hk Hm Hh Hz.
  pose proof (omega0_pos k m Hk Hm) as Hw0.
  destruct Hz as [Hz|Hz].
  - (* over-damped *)
    set (zeta := dampingRatio k c m) in *. set (w0 := omega0 k m) in *.
    destruct (overdamped_rates zeta w0 Hz Hw0) as [Hw2 [Hr21 Hr1]].
    assert (Hinv : forall n, risingOverDamped zeta w0 (oscillate k c m h n)).
    { induction n as [|n IH]; [now apply at_rest_overdamped|].
      simpl. rewrite advance_overdamped by assumption.
      now apply stepOverDamped_rising. }
    split.
    + intros n. simpl. rewrite advance_overdamped by assumption.
      destruct (stepOverDamped_rising zeta w0 h _ Hz Hw0 Hh (Hinv n))
        as [(_ & _ & Hu & _) Hle].
      fold zeta w0. lra.
    + exists (slowPart zeta w0 at_rest), (exp (slowRate zeta w0 * h)).
      destruct (at_rest_overdamped zeta w0 Hz Hw0) as (HA0 & _).
      pose proof (exp_pos (slowRate zeta w0 * h)) as He.
      assert (He1 : exp (slowRate zeta w0 * h) < 1).
      { replace (slowRate zeta w0 * h) with (- (- slowRate zeta w0 * h)) by lra.
        apply exp_decay. nra. }
      repeat split; try lra.
      assert (HA : forall n, slowPart zeta w0 (oscillate k c m h n)
                             = slowPart zeta w0 at_rest
                               * exp (slowRate zeta w0 * h) ^ n).
      { induction n as [|n IH]; [simpl; lra|].
        cbn [oscillate]. rewrite advance_overdamped by assumption.
        fold zeta w0.
        destruct (stepOverDamped_parts zeta w0 h (oscillate k c m h n) Hz Hw0)
          as [-> _].
        rewrite IH. simpl. lra. }
      intros n. rewrite <- HA.
      destruct (Hinv n) as (_ & HB & _ & _).
      destruct (slow_fast_parts zeta w0 (oscillate k c m h n) Hz Hw0) as [Hs _].
      lra.
  - (* critically damped *)
    symmetry in Hz. set (w0 := omega0 k m) in *.
    assert (Hinv : forall n, risingCritical w0 (oscillate k c m h n)).
    { induction n as [|n IH]; [now apply at_rest_critical|].
      simpl. rewrite advance_critical by assumption.
      now apply stepCritical_rising. }
    assert (Hwh : 0 < w0 * h) by nra.
    destruct (critical_factor (w0 * h) Hwh) as [Hf0 Hf1].
    assert (Hstep : forall n,
               0 <= displacement (oscillate k c m h (S n))
                 <= exp (- (w0 * h)) * (1 + w0 * h)
                    * displacement (oscillate k c m h n)).
    { intros n. simpl. rewrite advance_critical by assumption.
      now apply stepCritical_rising. }
    assert (Hu : forall n, 0 <= displacement (oscillate k c m h n)).
    { intros [|n]; [unfold displacement; simpl; lra|apply Hstep]. }
    split.
    + intros n. specialize (Hstep n). specialize (Hu n). nra.
    + set (rho := exp (- (w0 * h)) * (1 + w0 * h)) in *.
      exists 1, rho. repeat split; try lra.
      induction n as [|n IH].
      * unfold displacement. simpl. lra.
      * specialize (Hstep n). rewrite <- tech_pow_Rmult.
        assert (rho * displacement (oscillate k c m h n)
                <= rho * (1 * rho ^ n))
          by (apply Rmult_le_compat_l; lra).
        lra.
Qed.

Lemma oscillate_monotone k c m h :
  0 < k -> 0 < m -> 0 < h -> 1 <= dampingRatio k c m ->
  forall n n', (n <= n')%nat ->
    Oscillator.position (oscillate k c m h n)
    <= Oscillator.position (oscillate k c m h n').
Proof.
  intros Hk Hm Hh Hz n n' Hn.
  destruct (oscillate_rising k c m h Hk Hm Hh Hz) as [Hstep _].
  induction Hn as [|n' Hn IH]; [lra|].
  specialize (Hstep n'). unfold displacement in Hstep. lra.
Qed.

Lemma oscillate_bounded k c m h :
  0 < k -> 0 < m -> 0 < h -> 1 <= dampingRatio k c m ->
  forall n, 0 <= Oscillator.position (oscillate k c m h n) <= 1.
Proof.
  intros Hk Hm Hh Hz n.
  pose proof (oscillate_monotone k c m h Hk Hm Hh Hz O n (Nat.le_0_l n)) as H0.
  destruct (oscillate_rising k c m h Hk Hm Hh Hz) as [Hstep _].
  simpl in H0. split; [assumption|].
  destruct n as [|n]; [simpl; lra|].
  specialize (Hstep n). unfold displacement in Hstep. lra.
Qed.

Lemma oscillate_converges k c m h :
  0 < k -> 0 < m -> 0 < h -> 1 <= dampingRatio k c m ->
  forall eps, 0 < eps ->
    exists N, forall n, (N <= n)%nat ->
      1 - eps < Oscillator.position (oscillate k c m h n).
Proof.
  intros Hk Hm Hh Hz eps Heps.
  destruct (oscillate_rising k c m h Hk Hm Hh Hz)
    as [_ (C & rho & HC & [Hr0 Hr1] & Hb)].
  assert (Hy : 0 < eps / (C + 1)) by (apply Rdiv_lt_0_compat; lra).
  destruct (pow_lt_1_zero rho) with (y := eps / (C + 1)) as [N HN];
    [rewrite Rabs_pos_eq; lra|assumption|].
  exists N. intros n Hn. specialize (HN n Hn). specialize (Hb n).
  rewrite Rabs_pos_eq in HN by (apply pow_le; lra).
  assert (Hpow : 0 <= rho ^ n) by (apply pow_le; lra).
  assert (H1 : C * rho ^ n <= (C + 1) * rho ^ n) by nra.
  assert (H2 : (C + 1) * rho ^ n < (C + 1) * (eps / (C + 1)))
    by (apply Rmult_lt_compat_l; lra).
  replace ((C + 1) * (eps / (C + 1))) with eps in H2 by (field; lra).
  unfold displacement in Hb. lra.
Qed.

Lemma scene_damping_ratio : dampingRatio defaultStiffness 200 defaultMass = 10.
Proof.
  unfold dampingRatio, defaultStiffness, defaultMass.
  replace (100 * 1) with (10 * 10) by lra.
  rewrite sqrt_square by lra. lra.
Qed.

Lemma spring_at_rest frame fps k c m :
  (frame <= 0)%Z -> spring_at frame fps k c m = 0.
Proof.
  intros H. unfold spring_at.
  replace (Z.to_nat frame) with O by lia. reflexivity.
Qed.

Lemma spring_at_rises fps k c m :
  0 < fps -> 0 < k -> 0 < m -> 1 <= dampingRatio k c m ->
  (forall e1 e2, (e1 <= e2)%Z ->
     spring_at e1 fps k c m <= spring_at e2 fps k c m)
  /\ (forall e, 0 <= spring_at e fps k c m <= 1)
  /\ (forall eps, 0 < eps ->
        exists N, forall e, (N <= e)%Z -> 1 - eps < spring_at e fps k c m).
Proof.
  intros Hfps Hk Hm Hz.
  assert (Hh : 0 < 1 / fps) by (apply Rdiv_lt_0_compat; lra).
  unfold spring_at. repeat split.
  - intros e1 e2 He. apply oscillate_monotone; try assumption. lia.
  - now apply oscillate_bounded.
  - now apply oscillate_bounded.
  - intros eps Heps.
    destruct (oscillate_converges k c m (1 / fps) Hk Hm Hh Hz eps Heps)
      as [N HN].
    exists (Z.of_nat N). intros e He. apply HN. lia.
Qed.

(** C9.  The spring is 0 at every frame [<= 0], whatever its parameters.
    For a damping ratio of at least 1 (critically damped or over-damped), a
    positive frame rate, stiffness and mass, it never decreases as the frame
    grows, stays within [[0, 1]] (no overshoot) and comes as close to 1 as
    one likes.  The [damping: 200] parameterization of [Scene], with the
    default stiffness and mass, has damping ratio 10 and so is of that
    kind. *)
Theorem spring_boundary_and_rise :
  (forall frame fps k c m,
     (frame <= 0)%Z -> spring_at frame fps k c m = 0)
  /\ (forall frame fps config,
        (frame <= 0)%Z -> spring frame fps config = 0)
  /\ (forall fps k c m,
        0 < fps -> 0 < k -> 0 < m -> 1 <= dampingRatio k c m ->
        (forall e1 e2, (e1 <= e2)%Z ->
           spring_at e1 fps k c m <= spring_at e2 fps k c m)
        /\ (forall e, 0 <= spring_at e fps k c m <= 1)
        /\ (forall eps, 0 < eps ->
              exists N, forall e, (N <= e)%Z ->
                1 - eps < spring_at e fps k c m))
  /\ (forall fps, 0 < fps ->
        let entrance frame :=
          spring frame fps (SpringConfig.mk None (Some 200) None) in
        dampingRatio defaultStiffness 200 defaultMass = 10
        /\ (forall e1 e2, (e1 <= e2)%Z -> entrance e1 <= entrance e2)
        /\ (forall e, 0 <= entrance e <= 1)
        /\ (forall eps, 0 < eps ->
              exists N, forall e, (N <= e)%Z -> 1 - eps < entrance e)).
Proof.
  split; [|split; [|split]].
  - intros frame fps k c m. apply spring_at_rest.
  - intros frame fps config. apply spring_rest.
  - intros fps k c m. apply spring_at_rises.
  - intros fps Hfps entrance. split; [apply scene_damping_ratio|].
    subst entrance. unfold spring.
    cbn [SpringConfig.stiffness SpringConfig.damping SpringConfig.mass num_or].
    apply spring_at_rises; try assumption.
    + unfold defaultStiffness. lra.
    + unfold defaultMass. lra.
    + rewrite scene_damping_ratio. lra.
Qed.

Lemma spring_boundary_and_rise_witness :
  spring_at 3 30 100 200 1 <= spring_at 7 30 100 200 1.
Proof.
  refine (proj1 (proj1 (proj2 (proj2 spring_boundary_and_rise))
                   30 100 200 1 _ _ _ _) 3%Z 7%Z _); try lra; try lia.
  pose proof scene_damping_ratio as H.
  unfold defaultStiffness, defaultMass in H. rewrite H. lra.
Defined.

Local Close Scope R_scope.

(* ================================================================== *)
(** * Further properties of the code *)
(* ================================================================== *)

(** ** The timeline is contiguous and covers the playback *)

Lemma fold_left_add_shift (l : list SceneData.t) : forall a,
  fold_left (fun acc scene => acc + SceneData.durationInFrames scene) l a
  = a + totalFrames l.
Proof.
  induction l as [|s l IH]; intros a; unfold totalFrames in *; simpl.
  - lia.
  - rewrite IH. lia.
Qed.

Lemma totalDuration_totalFrames scenes : totalDuration scenes = totalFrames scenes.
Proof. unfold totalDuration. now rewrite fold_left_add_shift. Qed.

Lemma placeScenes_end scenes : forall i c,
  snd (placeScenes scenes i c) = c + totalFrames scenes.
Proof.
  induction scenes as [|s rest IH]; intros i c; simpl.
  - unfold totalFrames; simpl; lia.
  - specialize (IH (i + 1) (c + SceneData.durationInFrames s)).
    destruct (placeScenes rest (i + 1) (c + SceneData.durationInFrames s)).
    simpl in *. rewrite IH. unfold totalFrames. simpl. lia.
Qed.

Lemma offset_succ scenes : forall n s,
  nth_error scenes n = Some s ->
  offset scenes (S n) = offset scenes n + SceneData.durationInFrames s.
Proof.
  induction scenes as [|s0 rest IH]; intros n s Hn.
  - destruct n; discriminate.
  - destruct n as [|n].
    + simpl in Hn. inversion Hn; subst. unfold offset. simpl.
      destruct rest; simpl; lia.
    + simpl in Hn. specialize (IH n s Hn). unfold offset in *.
      cbn [firstn map fold_right] in *. lia.
Qed.

(** The sequences [MainComposition] lays out start at frame 0, follow one
    another without gap or overlap, carry their index as key, and end where
    the [totalDuration] that [GeneratorForm] computes for the same scenes
    says: the value [currentFrame] is left with is that sum. *)
Theorem timeline_contiguous (scenes : list SceneData.t) :
  (forall p, nth_error (fst (placeScenes scenes 0 0)) 0 = Some p ->
     SequenceProps.from p = 0)
  /\ (forall n p q,
        nth_error (fst (placeScenes scenes 0 0)) n = Some p ->
        nth_error (fst (placeScenes scenes 0 0)) (S n) = Some q ->
        SequenceProps.from q
        = SequenceProps.from p + SequenceProps.durationInFrames p)
  /\ (forall n p,
        nth_error (fst (placeScenes scenes 0 0)) n = Some p ->
        SequenceProps.key p = Z.of_nat n
        /\ nth_error scenes n = Some (SequenceProps.child p)
        /\ SequenceProps.durationInFrames p
           = SceneData.durationInFrames (SequenceProps.child p))
  /\ List.length (fst (placeScenes scenes 0 0)) = List.length scenes
  /\ snd (placeScenes scenes 0 0) = totalDuration scenes.
Proof.
  repeat apply conj.
  - intros p Hp. rewrite placeScenes_nth in Hp.
    destruct (nth_error scenes 0); inversion Hp; subst. reflexivity.
  - intros n p q Hp Hq. rewrite placeScenes_nth in Hp, Hq.
    destruct (nth_error scenes n) as [s|] eqn:En; inversion Hp; subst.
    destruct (nth_error scenes (S n)) as [s'|] eqn:En'; inversion Hq; subst.
    cbn [SequenceProps.from SequenceProps.durationInFrames].
    rewrite (offset_succ scenes n s En). lia.
  - intros n p Hp. rewrite placeScenes_nth in Hp.
    destruct (nth_error scenes n) as [s|] eqn:En; inversion Hp; subst.
    cbn. repeat split; lia.
  - apply placeScenes_length.
  - rewrite placeScenes_end, totalDuration_totalFrames. lia.
Qed.

Lemma locate_unique_from scenes : forall i c g,
  Forall (fun s => 0 < SceneData.durationInFrames s) scenes ->
  c <= g < c + totalFrames scenes ->
  exists n s,
    nth_error scenes n = Some s
    /\ flat_map (activeAt g) (fst (placeScenes scenes i c))
       = [(i + Z.of_nat n, g - (c + offset scenes n))]
    /\ 0 <= g - (c + offset scenes n) < SceneData.durationInFrames s.
Proof.
  induction scenes as [|s rest IH]; intros i c g Hpos Hg.
  - unfold totalFrames in Hg. simpl in Hg. lia.
  - inversion Hpos as [|? ? Hs Hrest]; subst.
    rewrite placeScenes_cons. cbn [flat_map].
    destruct (Z_lt_le_dec g (c + SceneData.durationInFrames s)) as [Hlt|Hge].
    + exists O, s. rewrite activeAt_in by (cbn; lia).
      rewrite none_before by (try apply positive_nonneg; assumption || lia).
      unfold offset. cbn. repeat split; try lia.
      f_equal. f_equal; lia.
    + rewrite activeAt_out by (cbn; lia).
      destruct (IH (i + 1) (c + SceneData.durationInFrames s) g Hrest)
        as (n & s' & Hn & Hloc & Hl).
      { unfold totalFrames in *. simpl in Hg. lia. }
      exists (S n), s'. cbn [app nth_error]. rewrite Hloc.
      unfold offset in *. cbn [firstn map fold_right].
      repeat split; try assumption; try lia.
      f_equal. f_equal; lia.
Qed.

Lemma countRendered_mount {T : Type}
    (TechScene : SceneData.t -> Hooks.t -> option T) env placed :
  countRendered
    (map (fun s => Sequence (SequenceProps.from s)
                     (SequenceProps.durationInFrames s)
                     (Scene TechScene (SequenceProps.child s)) env) placed)
  = List.length (flat_map (activeAt (Hooks.useCurrentFrame env)) placed).
Proof.
  unfold countRendered.
  induction placed as [|p placed IH]; [reflexivity|].
  cbn [map flat_map filter]. rewrite length_app, <- IH.
  unfold Sequence, activeAt.
  destruct (sequenceFrame _ _ _); reflexivity.
Qed.

Lemma playerFrame_inside d g : 0 <= g < d -> playerFrame d g = g.
Proof. unfold playerFrame. lia. Qed.

Lemma playerFrame_range d g : 0 < d -> 0 <= playerFrame d g < d.
Proof. unfold playerFrame. lia. Qed.

(** With positive scene durations, every frame the player can ask for (from
    0 up to, not including, the [totalDuration] that the form computes)
    mounts exactly one scene, at a local frame inside that scene; the
    rendered timeline has exactly one entry that is not empty. *)
Theorem playback_shows_one_scene
    (T : Type) (TechScene : SceneData.t -> Hooks.t -> option T)
    (topic : string) (aspectRatio : AspectRatio) (geminiData : GeminiResponse.t)
    (g : Z)
    (Hpos : Forall (fun s => 0 < SceneData.durationInFrames s)
              (GeminiResponse.scenes geminiData))
    (Hg : 0 <= g < VideoConfig.totalDuration
                     (buildVideoConfig topic aspectRatio geminiData)) :
  let config := buildVideoConfig topic aspectRatio geminiData in
  (exists n s,
     nth_error (GeminiResponse.scenes geminiData) n = Some s
     /\ locate (GeminiResponse.scenes geminiData) g
        = [(Z.of_nat n, g - offset (GeminiResponse.scenes geminiData) n)]
     /\ 0 <= g - offset (GeminiResponse.scenes geminiData) n
          < SceneData.durationInFrames s)
  /\ option_map countRendered
       (render TechScene (Some config) (playerEnv config g))
     = Some 1%nat.
Proof.
  intros config.
  assert (Hg' : 0 <= g < 0 + totalFrames (GeminiResponse.scenes geminiData)).
  { unfold buildVideoConfig in Hg.
    destruct (resolveDimensions aspectRatio). cbn in Hg.
    rewrite totalDuration_totalFrames in Hg. lia. }
  destruct (locate_unique_from (GeminiResponse.scenes geminiData) 0 0 g Hpos Hg')
    as (n & s & Hn & Hloc & Hl).
  split.
  - exists n, s. unfold locate. rewrite Hloc. cbn [Z.add] in *.
    repeat split; try assumption; try lia.
  - unfold render, MainComposition, config, buildVideoConfig.
    destruct (resolveDimensions aspectRatio). cbn [VideoConfig.scenes mount
      option_map]. rewrite countRendered_mount. cbn [Hooks.useCurrentFrame
      playerEnv VideoConfig.totalDuration].
    rewrite playerFrame_inside
      by (rewrite totalDuration_totalFrames; lia).
    now rewrite Hloc.
Qed.

Lemma playback_shows_one_scene_witness :
  option_map countRendered
    (render Stage.TechScene
       (Some (buildVideoConfig "Caching" ratio_16_9
                (GeminiResponse.mk
                   [plainScene intro 30; redisScene; plainScene outro 45]
                   "Techno")))
       (playerEnv (buildVideoConfig "Caching" ratio_16_9
                     (GeminiResponse.mk
                        [plainScene intro 30; redisScene; plainScene outro 45]
                        "Techno")) 270))
  = Some 1%nat.
Proof.
  refine (proj2 (playback_shows_one_scene _ Stage.TechScene "Caching"
                   ratio_16_9
                   (GeminiResponse.mk
                      [plainScene intro 30; redisScene; plainScene outro 45]
                      "Techno") 270 _ _)).
  - repeat constructor.
  - cbn. lia.
Defined.

(** ** Frames requested outside the timeline *)






(** ** The form: canvas, submit and the service's answer *)

(** The canvas the form resolves has the selected aspect ratio, and App.tsx
    lays it out as landscape-or-square exactly when the ratio is not 9:16. *)
Theorem form_canvas_has_ratio (topic : string) (aspectRatio : AspectRatio)
    (geminiData : GeminiResponse.t) :
  let config := buildVideoConfig topic aspectRatio geminiData in
  (match aspectRatio with
   | ratio_1_1 => VideoConfig.width config = VideoConfig.height config
   | ratio_16_9 =>
       (VideoConfig.width config * 9 = VideoConfig.height config * 16)%R
   | ratio_9_16 =>
       (VideoConfig.width config * 16 = VideoConfig.height config * 9)%R
   end)
  /\ (isLandscapeOrSquare config = true <-> aspectRatio <> ratio_9_16)
  /\ VideoConfig.fps config = 30%R
  /\ VideoConfig.totalDuration config
     = totalFrames (GeminiResponse.scenes geminiData).
Proof.
  intros config. subst config. unfold buildVideoConfig, isLandscapeOrSquare.
  destruct aspectRatio; cbn; rewrite totalDuration_totalFrames;
    repeat split; try lra; try reflexivity; try congruence;
    destruct (Rle_dec _ _); try reflexivity; try congruence; try lra;
    intros; try discriminate; exfalso; lra.
Qed.

Lemma str_or_nonempty s d : d <> "" -> str_or s d <> "".
Proof.
  intros Hd. unfold str_or. destruct s as [v|]; [|assumption].
  destruct (String.eqb v "") eqn:E; [assumption|].
  now apply String.eqb_neq in E.
Qed.

(** [handleSubmit]: a blank topic changes nothing and never reaches the
    service.  Otherwise, once the call has settled the generating flag is
    down again and the form's inputs are as they were; a rejection leaves
    the video that is playing untouched and shows a message that is never
    empty; a fulfilment clears the error and installs the configuration
    built from the response. *)
Theorem handleSubmit_outcomes
    (generateVideoScript : string -> Z -> Settled) (st : FormState.t) :
  (isBlank (FormState.topic st) = true ->
     forall other, handleSubmit other st = st)
  /\ (isBlank (FormState.topic st) = false ->
      let st' := handleSubmit generateVideoScript st in
      FormState.isGenerating st' = false
      /\ FormState.topic st' = FormState.topic st
      /\ FormState.aspectRatio st' = FormState.aspectRatio st
      /\ FormState.duration st' = FormState.duration st
      /\ (forall message,
            generateVideoScript (FormState.topic st) (FormState.duration st)
            = Rejected message ->
            FormState.videoData st' = FormState.videoData st
            /\ exists shown, FormState.error st' = Some shown /\ shown <> ""
                 /\ (forall m, message = Some m -> m <> "" -> shown = m))
      /\ (forall geminiData,
            generateVideoScript (FormState.topic st) (FormState.duration st)
            = Fulfilled geminiData ->
            FormState.error st' = None
            /\ FormState.videoData st'
               = buildVideoConfig (FormState.topic st)
                   (FormState.aspectRatio st) geminiData)).
Proof.
  split.
  - intros Hb other. unfold handleSubmit. now rewrite Hb.
  - intros Hb st'. subst st'. unfold handleSubmit. rewrite Hb.
    destruct (generateVideoScript (FormState.topic st) (FormState.duration st))
      as [data|msg]; cbn; repeat apply conj; try reflexivity.
    + intros message H. discriminate.
    + intros geminiData H. inversion H. split; reflexivity.
    + intros message H. inversion H; subst msg. split; [reflexivity|].
      eexists. split; [reflexivity|]. split.
      * apply str_or_nonempty. discriminate.
      * intros m -> Hm. unfold str_or.
        destruct (String.eqb m "") eqn:E; [|reflexivity].
        now apply String.eqb_eq in E.
    + intros geminiData H. discriminate.
Qed.

Lemma handleSubmit_outcomes_witness :
  FormState.isGenerating
    (handleSubmit (fun _ _ => Rejected None)
       (FormState.mk "Redis" None ratio_1_1 15 INITIAL_DATA true)) = false.
Proof.
  apply (proj2 (handleSubmit_outcomes (fun _ _ => Rejected None)
                  (FormState.mk "Redis" None ratio_1_1 15 INITIAL_DATA true))).
  reflexivity.
Defined.

(** ** The two post-processing passes *)

Ltac scene_cases s :=
  let ty := fresh "ty" in
  let cfg := fresh "cfg" in
  destruct s as [? ? ? ? ? ty cfg];
  destruct ty; destruct cfg as [[[?|] [?|] [?|]]|].

(** Either pass leaves a scene normalised, is idempotent and keeps a
    normalised scene as it is; both keep the duration; and they give the
    same scene except on a [tech_diagram] without configuration, which one
    turns into a [bullet_point] and the other into an empty diagram. *)
Theorem passes_normalise (s : SceneData.t) :
  normalised (downgradeScene s) = true
  /\ normalised (substituteScene s) = true
  /\ downgradeScene (downgradeScene s) = downgradeScene s
  /\ substituteScene (substituteScene s) = substituteScene s
  /\ substituteScene (downgradeScene s) = downgradeScene s
  /\ (normalised s = true -> downgradeScene s = s /\ substituteScene s = s)
  /\ SceneData.durationInFrames (downgradeScene s) = SceneData.durationInFrames s
  /\ SceneData.durationInFrames (substituteScene s) = SceneData.durationInFrames s
  /\ (downgradeScene s = substituteScene s
      <-> ~ (SceneData.type s = tech_diagram
             /\ SceneData.diagramConfig s = None))
  /\ (SceneData.type s = tech_diagram -> SceneData.diagramConfig s = None ->
      SceneData.type (downgradeScene s) = bullet_point
      /\ SceneData.diagramConfig (downgradeScene s) = None
      /\ SceneData.type (substituteScene s) = tech_diagram
      /\ SceneData.diagramConfig (substituteScene s)
         = Some (DiagramConfig.mk (Some []) (Some []) (Some []))).
Proof.
  do 5 (split; [scene_cases s; reflexivity|]).
  split.
  { scene_cases s; cbn; intros H; try discriminate; split; reflexivity. }
  do 2 (split; [scene_cases s; reflexivity|]).
  split.
  { split.
    - intros H [Hty Hcfg]. scene_cases s; cbn in *; discriminate.
    - intros H. scene_cases s; cbn in *; try reflexivity.
      exfalso. apply H. split; reflexivity. }
  intros Hty Hcfg. scene_cases s; cbn in *; try discriminate.
  repeat split.
Qed.

Lemma passes_normalise_witness :
  downgradeScene (redisScene) = redisScene
  /\ substituteScene (redisScene) = redisScene.
Proof.
  apply (proj1 (proj2 (proj2 (proj2 (proj2 (proj2
           (passes_normalise redisScene))))))).
  reflexivity.
Defined.

Lemma passes_normalise_durations s :
  SceneData.durationInFrames (downgradeScene s) = SceneData.durationInFrames s
  /\ SceneData.durationInFrames (substituteScene s)
     = SceneData.durationInFrames s.
Proof. scene_cases s; split; reflexivity. Qed.

Lemma passes_normalise_bool s :
  normalised (downgradeScene s) = true /\ normalised (substituteScene s) = true.
Proof. scene_cases s; split; reflexivity. Qed.

Lemma Flat_TechScene_pass s env :
  SceneData.diagramConfig s <> None ->
  Flat.TechScene (downgradeScene s) env = Flat.TechScene s env
  /\ Flat.TechScene (substituteScene s) env = Flat.TechScene s env.
Proof.
  intros H. scene_cases s; cbn in H; try congruence; split; reflexivity.
Qed.

Lemma Stage_TechScene_pass s env :
  SceneData.diagramConfig s <> None ->
  Stage.TechScene (downgradeScene s) env = Stage.TechScene s env
  /\ Stage.TechScene (substituteScene s) env = Stage.TechScene s env.
Proof.
  intros H. scene_cases s; cbn in H; try congruence; split; reflexivity.
Qed.

Lemma Scene_pass s env :
  (SceneData.type s = tech_diagram -> SceneData.diagramConfig s <> None) ->
  (Scene Flat.TechScene (downgradeScene s) env = Scene Flat.TechScene s env
   /\ Scene Flat.TechScene (substituteScene s) env = Scene Flat.TechScene s env)
  /\ (Scene Stage.TechScene (downgradeScene s) env = Scene Stage.TechScene s env
      /\ Scene Stage.TechScene (substituteScene s) env
         = Scene Stage.TechScene s env).
Proof.
  intros H.
  destruct (sceneType_eqb (SceneData.type s) tech_diagram) eqn:E.
  - assert (Hty : SceneData.type s = tech_diagram)
      by (destruct (SceneData.type s); (reflexivity || discriminate)).
    specialize (H Hty).
    destruct (Flat_TechScene_pass s env H) as [F1 F2].
    destruct (Stage_TechScene_pass s env H) as [S1 S2].
    assert (Td : SceneData.type (downgradeScene s) = tech_diagram)
      by (scene_cases s; try discriminate; try congruence; reflexivity).
    assert (Ts : SceneData.type (substituteScene s) = tech_diagram)
      by (scene_cases s; try discriminate; reflexivity).
    unfold Scene. rewrite Td, Ts, Hty, F1, F2, S1, S2.
    repeat split.
  - assert (Hd : downgradeScene s = s) by (unfold downgradeScene; now rewrite E).
    assert (Hs : substituteScene s = s) by (unfold substituteScene; now rewrite E).
    rewrite Hd, Hs. repeat split.
Qed.

Lemma mount_pass {T : Type} (TechScene : SceneData.t -> Hooks.t -> option T)
    (pass : SceneData.t -> SceneData.t) env scenes :
  (forall s, In s scenes ->
     SceneData.durationInFrames (pass s) = SceneData.durationInFrames s
     /\ forall e, Scene TechScene (pass s) e = Scene TechScene s e) ->
  forall i c,
    map (fun p => Sequence (SequenceProps.from p)
                    (SequenceProps.durationInFrames p)
                    (Scene TechScene (SequenceProps.child p)) env)
      (fst (placeScenes (map pass scenes) i c))
    = map (fun p => Sequence (SequenceProps.from p)
                      (SequenceProps.durationInFrames p)
                      (Scene TechScene (SequenceProps.child p)) env)
        (fst (placeScenes scenes i c)).
Proof.
  induction scenes as [|s rest IH]; intros H i c; [reflexivity|].
  cbn [map]. rewrite !placeScenes_cons. cbn [map].
  destruct (H s (or_introl eq_refl)) as [Hd Hr].
  cbn [SequenceProps.from SequenceProps.durationInFrames SequenceProps.child].
  rewrite Hd. f_equal.
  - unfold Sequence. destruct (sequenceFrame _ _ _); cbn; [|reflexivity].
    now rewrite Hr.
  - apply IH. intros s' Hin. apply H. now right.
Qed.

(** Post-processing does not change the picture of scenes that came with
    their diagram: when every [tech_diagram] scene of a configuration has a
    [diagramConfig], the timeline rendered from the post-processed scenes is,
    at every frame and with either renderer, the one rendered from the
    scenes as they came. *)
Theorem passes_keep_the_picture
    (config config' : VideoConfig.t) (scenes : list SceneData.t)
    (pass : SceneData.t -> SceneData.t) (env : Hooks.t)
    (Hpass : pass = downgradeScene \/ pass = substituteScene)
    (Hscenes : VideoConfig.scenes config = Some scenes)
    (Hscenes' : VideoConfig.scenes config' = Some (map pass scenes))
    (Hcfg : forall s, In s scenes -> SceneData.type s = tech_diagram ->
                      SceneData.diagramConfig s <> None) :
  render Flat.TechScene (Some config') env
  = render Flat.TechScene (Some config) env
  /\ render Stage.TechScene (Some config') env
     = render Stage.TechScene (Some config) env.
Proof.
  unfold render, MainComposition. rewrite Hscenes, Hscenes'. cbn [mount].
  split; f_equal; apply mount_pass; intros s Hin;
    pose proof (Scene_pass s) as HS;
    destruct (passes_normalise_durations s) as [D1 D2];
    destruct Hpass as [-> | ->]; (split; [assumption|]);
    intros e; apply (HS e (Hcfg s Hin)).
Qed.

Lemma passes_keep_the_picture_witness :
  render Stage.TechScene
    (Some (VideoConfig.mk "Redis Distributed Lock" "Techno / Cyberpunk" 240
             (Some (map substituteScene [redisScene])) 1080 1080 30))
    (playerEnv INITIAL_DATA 80)
  = render Stage.TechScene (Some INITIAL_DATA) (playerEnv INITIAL_DATA 80).
Proof.
  refine (proj2 (passes_keep_the_picture INITIAL_DATA
                   (VideoConfig.mk "Redis Distributed Lock"
                      "Techno / Cyberpunk" 240
                      (Some (map substituteScene [redisScene])) 1080 1080 30)
                   [redisScene] substituteScene (playerEnv INITIAL_DATA 80)
                   (or_intror eq_refl) eq_refl eq_refl _)).
  intros s [<-|[]] _. simpl. discriminate.
Defined.

(** ** The end of [generateVideoScript] *)

Lemma Forall_map_normalised (pass : SceneData.t -> SceneData.t) scenes :
  (forall s, normalised (pass s) = true) ->
  Forall (fun s => normalised s = true) (map pass scenes).
Proof.
  intros H. induction scenes; simpl; constructor; auto.
Qed.

Lemma totalFrames_map_pass (pass : SceneData.t -> SceneData.t) scenes :
  (forall s, SceneData.durationInFrames (pass s) = SceneData.durationInFrames s) ->
  totalFrames (map pass scenes) = totalFrames scenes.
Proof.
  intros H. unfold totalFrames.
  induction scenes as [|s rest IH]; simpl; [reflexivity|].
  now rewrite H, IH.
Qed.

Lemma normalised_not_null s env :
  normalised s = true ->
  Scene Flat.TechScene s env <> SceneRender.Diagram None
  /\ Scene Stage.TechScene s env <> SceneRender.Diagram None.
Proof.
  intros H. scene_cases s; cbn in H; try discriminate;
    split; unfold Scene; cbn [sceneType_eqb SceneData.type]; cbv zeta;
    try (destruct (interpolate _ _ _)); discriminate.
Qed.

(** An empty answer of the model is rejected with "No response from Gemini"
    before the text is parsed, and a failing parse is rejected with its own
    message.  A response that is handed on has gone through the pass of the
    file: it has as many scenes, of the same total duration and the same
    mood, as the parsed one, each of its scenes is normalised, and none of
    them makes the diagram renderer return [null]. *)
Theorem finishScript_outcomes
    (pass : SceneData.t -> SceneData.t)
    (JSON_parse : string -> GeminiResponse.t + string) (text : option string)
    (Hpass : pass = downgradeScene \/ pass = substituteScene) :
  (truthy text = false ->
     finishScript pass JSON_parse text
     = Rejected (Some "No response from Gemini"))
  /\ (forall raw message, text = Some raw -> raw <> "" ->
        JSON_parse raw = inr message ->
        finishScript pass JSON_parse text = Rejected (Some message))
  /\ (forall data, finishScript pass JSON_parse text = Fulfilled data ->
        exists raw parsed,
          text = Some raw /\ raw <> "" /\ JSON_parse raw = inl parsed
          /\ GeminiResponse.scenes data = map pass (GeminiResponse.scenes parsed)
          /\ GeminiResponse.suggestedMusicMood data
             = GeminiResponse.suggestedMusicMood parsed
          /\ totalDuration (GeminiResponse.scenes data)
             = totalDuration (GeminiResponse.scenes parsed)
          /\ Forall (fun s => normalised s = true) (GeminiResponse.scenes data)
          /\ (forall s env, In s (GeminiResponse.scenes data) ->
                Scene Flat.TechScene s env <> SceneRender.Diagram None
                /\ Scene Stage.TechScene s env <> SceneRender.Diagram None)).
Proof.
  assert (Hnorm : forall s, normalised (pass s) = true).
  { intros s. destruct Hpass as [-> | ->]; apply (passes_normalise_bool s). }
  assert (Hdur : forall s, SceneData.durationInFrames (pass s)
                           = SceneData.durationInFrames s).
  { intros s. destruct Hpass as [-> | ->]; apply (passes_normalise_durations s). }
  repeat apply conj.
  - intros Ht. unfold finishScript. now rewrite Ht.
  - intros raw message -> Hraw Hparse. unfold finishScript. cbn.
    destruct (String.eqb raw "") eqn:E;
      [apply String.eqb_eq in E; contradiction|].
    cbn. now rewrite Hparse.
  - intros data H. unfold finishScript in H.
    destruct text as [raw|]; cbn in H; [|discriminate].
    destruct (String.eqb raw "") eqn:E; cbn in H; [discriminate|].
    apply String.eqb_neq in E.
    destruct (JSON_parse raw) as [parsed|msg] eqn:P; [|discriminate].
    inversion H; subst data.
    cbn [GeminiResponse.scenes GeminiResponse.suggestedMusicMood].
    exists raw, parsed. repeat apply conj; try reflexivity; try assumption.
    + rewrite !totalDuration_totalFrames. now apply totalFrames_map_pass.
    + now apply Forall_map_normalised.
    + intros s env Hin. apply normalised_not_null.
      apply in_map_iff in Hin. destruct Hin as (s0 & <- & _). apply Hnorm.
Qed.

Lemma finishScript_outcomes_witness :
  finishScript substituteScene (fun _ => inr "Unexpected token") (Some "")
  = Rejected (Some "No response from Gemini").
Proof.
  apply (proj1 (finishScript_outcomes substituteScene
                  (fun _ => inr "Unexpected token") (Some "")
                  (or_intror eq_refl))).
  reflexivity.
Defined.

(** ** The number of scenes asked for *)

(** Both services ask for at least three scenes, and for no fewer when the
    video gets longer.  From the point where the floor takes over (15
    seconds at 5 seconds a scene, 18 at 6) the scenes asked for fit the
    duration at that length each, with less than one scene's length to
    spare; and the service of unnamed/part_001 never asks for more scenes
    than the one of services/geminiService.ts. *)
Theorem targetScenes_bounds (durationSeconds : Z) :
  3 <= targetScenes 5 durationSeconds
  /\ 3 <= targetScenes 6 durationSeconds
  /\ (forall longer, durationSeconds <= longer ->
        targetScenes 5 durationSeconds <= targetScenes 5 longer
        /\ targetScenes 6 durationSeconds <= targetScenes 6 longer)
  /\ (15 <= durationSeconds ->
      5 * targetScenes 5 durationSeconds <= durationSeconds
        < 5 * targetScenes 5 durationSeconds + 5)
  /\ (18 <= durationSeconds ->
      6 * targetScenes 6 durationSeconds <= durationSeconds
        < 6 * targetScenes 6 durationSeconds + 6)
  /\ (durationSeconds < 15 -> targetScenes 5 durationSeconds = 3)
  /\ (0 <= durationSeconds ->
      targetScenes 6 durationSeconds <= targetScenes 5 durationSeconds).
Proof.
  unfold targetScenes.
  pose proof (Z.div_mod durationSeconds 5 ltac:(lia)) as E5.
  pose proof (Z.mod_pos_bound durationSeconds 5 ltac:(lia)) as B5.
  pose proof (Z.div_mod durationSeconds 6 ltac:(lia)) as E6.
  pose proof (Z.mod_pos_bound durationSeconds 6 ltac:(lia)) as B6.
  repeat apply conj; try lia.
  intros longer Hl.
  pose proof (Z.div_le_mono durationSeconds longer 5 ltac:(lia) Hl).
  pose proof (Z.div_le_mono durationSeconds longer 6 ltac:(lia) Hl).
  lia.
Qed.

Lemma targetScenes_bounds_witness :
  5 * targetScenes 5 32 <= 32 < 5 * targetScenes 5 32 + 5.
Proof.
  apply (proj1 (proj2 (proj2 (proj2 (targetScenes_bounds 32))))). lia.
Defined.

(** ** The download name *)

Ltac each_char c :=
  let b0 := fresh in let b1 := fresh in let b2 := fresh in let b3 := fresh in
  let b4 := fresh in let b5 := fresh in let b6 := fresh in let b7 := fresh in
  destruct c as [b0 b1 b2 b3 b4 b5 b6 b7];
  destruct b0, b1, b2, b3, b4, b5, b6, b7.

Lemma toLowerCase1_facts c :
  isUpper (toLowerCase1 c) = false
  /\ isSpace (toLowerCase1 c) = isSpace c
  /\ (isUpper c = false -> toLowerCase1 c = c).
Proof. each_char c; repeat split; try reflexivity; discriminate. Qed.

Lemma replaceSpaceRuns_no_space s : forall inRun,
  allChars (fun c => negb (isSpace c)) (replaceSpaceRuns inRun s) = true.
Proof.
  induction s as [|c s IH]; intros inRun; [reflexivity|]. cbn [replaceSpaceRuns].
  destruct (isSpace c) eqn:E.
  - destruct inRun; [apply IH|]. cbn [allChars]. now rewrite IH.
  - cbn [allChars]. now rewrite E, IH.
Qed.

Lemma replaceSpaceRuns_length s : forall inRun,
  (String.length (replaceSpaceRuns inRun s) <= String.length s)%nat.
Proof.
  induction s as [|c s IH]; intros inRun; [apply Nat.le_refl|].
  cbn [replaceSpaceRuns]. destruct (isSpace c).
  - destruct inRun; cbn [String.length].
    + specialize (IH true). lia.
    + specialize (IH true). lia.
  - cbn [String.length]. specialize (IH false). lia.
Qed.

Lemma replaceSpaceRuns_clean s : forall inRun,
  allChars (fun c => negb (isSpace c)) s = true ->
  replaceSpaceRuns inRun s = s.
Proof.
  induction s as [|c s IH]; intros inRun H; [reflexivity|].
  cbn [allChars] in H. apply andb_true_iff in H. destruct H as [Hc Hs].
  cbn [replaceSpaceRuns]. apply negb_true_iff in Hc. rewrite Hc.
  now rewrite IH.
Qed.

Lemma toLowerCase_length s : String.length (toLowerCase s) = String.length s.
Proof. induction s; cbn; [reflexivity|now rewrite IHs]. Qed.

Lemma toLowerCase_no_upper s :
  allChars (fun c => negb (isUpper c)) (toLowerCase s) = true.
Proof.
  induction s as [|c s IH]; [reflexivity|]. cbn [toLowerCase allChars].
  destruct (toLowerCase1_facts c) as [-> _]. now rewrite IH.
Qed.

Lemma toLowerCase_keeps_no_space s :
  allChars (fun c => negb (isSpace c)) s = true ->
  allChars (fun c => negb (isSpace c)) (toLowerCase s) = true.
Proof.
  induction s as [|c s IH]; [reflexivity|]. cbn [toLowerCase allChars].
  intros H. apply andb_true_iff in H. destruct H as [Hc Hs].
  destruct (toLowerCase1_facts c) as (_ & -> & _). now rewrite Hc, IH.
Qed.

Lemma toLowerCase_clean s :
  allChars (fun c => negb (isUpper c)) s = true -> toLowerCase s = s.
Proof.
  induction s as [|c s IH]; [reflexivity|]. cbn [toLowerCase allChars].
  intros H. apply andb_true_iff in H. destruct H as [Hc Hs].
  apply negb_true_iff in Hc.
  destruct (toLowerCase1_facts c) as (_ & _ & ->); [|assumption].
  now rewrite IH.
Qed.

(** The middle of the download name, for a topic of ASCII characters: it
    holds no white space and no upper-case letter, is no longer than the
    topic, is the topic itself when the topic is already of that form, and
    so does not change when it is taken again. *)
Theorem slug_is_clean (topic : string) :
  allChars (fun c => negb (isSpace c)) (slug topic) = true
  /\ allChars (fun c => negb (isUpper c)) (slug topic) = true
  /\ (String.length (slug topic) <= String.length topic)%nat
  /\ (allChars (fun c => negb (isSpace c)) topic = true ->
      allChars (fun c => negb (isUpper c)) topic = true ->
      slug topic = topic)
  /\ slug (slug topic) = slug topic.
Proof.
  assert (H1 : allChars (fun c => negb (isSpace c)) (slug topic) = true).
  { unfold slug. apply toLowerCase_keeps_no_space, replaceSpaceRuns_no_space. }
  assert (H2 : allChars (fun c => negb (isUpper c)) (slug topic) = true).
  { unfold slug. apply toLowerCase_no_upper. }
  assert (H4 : forall t, allChars (fun c => negb (isSpace c)) t = true ->
                 allChars (fun c => negb (isUpper c)) t = true -> slug t = t).
  { intros t Hs Hu. unfold slug.
    rewrite replaceSpaceRuns_clean by assumption. now apply toLowerCase_clean. }
  repeat apply conj; try assumption.
  - unfold slug. rewrite toLowerCase_length. apply replaceSpaceRuns_length.
  - apply H4.
  - now apply H4.
Qed.

Lemma slug_is_clean_witness : slug "redis-lock" = "redis-lock".
Proof.
  apply (proj1 (proj2 (proj2 (proj2 (slug_is_clean "redis-lock")))));
    reflexivity.
Defined.

(** ** The two diagram renderers side by side *)

(** The flat and the tilted-stage renderer show the same things at the same
    places: an action is rendered by the one exactly when the other renders
    it as a packet or as a popup (never as both), packets sit at the same
    position, and an edge is drawn by both or by neither, between the same
    end points; a node has the same key and anchor in both, and a node the
    flat renderer highlights is highlighted on the stage as well. *)
Theorem renderers_agree (data : SceneData.t) (nodes : list DiagramNode.t)
    (actions : list DiagramAction.t) (f : Z) (w h fps : R) (i : Z) :
  (forall action,
     rendered (Flat.renderAction nodes f w h fps action i)
     = rendered (Stage.renderPacket nodes f w h action i)
       || rendered (Stage.renderPopup nodes f w h fps action i)
     /\ rendered (Stage.renderPacket nodes f w h action i)
        && rendered (Stage.renderPopup nodes f w h fps action i) = false
     /\ Flat_packetAt (Flat.renderAction nodes f w h fps action i)
        = Stage_packetAt (Stage.renderPacket nodes f w h action i)
     /\ Flat_isLabel (Flat.renderAction nodes f w h fps action i)
        = rendered (Stage.renderPopup nodes f w h fps action i))
  /\ (forall edge,
        match Flat.renderEdge data nodes f w h fps edge i,
              Stage.renderEdge data nodes f w h fps edge i with
        | Some a, Some b =>
            Flat.Edge.x1 a = Stage.Edge.x1 b /\ Flat.Edge.y1 a = Stage.Edge.y1 b
            /\ Flat.Edge.x2 a = Stage.Edge.x2 b
            /\ Flat.Edge.y2 a = Stage.Edge.y2 b
            /\ Flat.Edge.label a = Stage.Edge.label b
        | None, None => True
        | _, _ => False
        end)
  /\ (forall node,
        let a := Flat.renderNode data actions f w h fps node i in
        let b := Stage.renderNode actions f w h fps node i in
        Flat.Node.key a = Stage.Node.key b
        /\ Flat.Node.left a = Stage.Node.left b
        /\ Flat.Node.top a = Stage.Node.top b
        /\ (Flat.Node.highlighted a = true -> Stage.Node.highlighted b = true)).
Proof.
  repeat apply conj.
  - intros action. unfold Flat.renderAction, Stage.renderPacket,
      Stage.renderPopup. cbv zeta.
    destruct (DiagramAction.type action);
      cbn [actionType_eqb andb orb negb];
      destruct (truthy (DiagramAction.fromId action));
      destruct (truthy (DiagramAction.toId action));
      destruct (truthy (DiagramAction.targetId action));
      destruct (f <? DiagramAction.startDelay action);
      destruct (DiagramAction.startDelay action
                + DiagramAction.duration action <? f);
      cbn [andb orb negb];
      destruct (findNode nodes (DiagramAction.fromId action));
      destruct (findNode nodes (DiagramAction.toId action));
      destruct (findNode nodes (DiagramAction.targetId action));
      repeat split.
  - intros edge. unfold Flat.renderEdge, Stage.renderEdge.
    destruct (findNode nodes (Some (DiagramEdge.fromId edge)));
      destruct (findNode nodes (Some (DiagramEdge.toId edge)));
      cbn; repeat split; exact I.
  - intros node a b. subst a b. unfold Flat.renderNode, Stage.renderNode.
    cbn [Flat.Node.key Flat.Node.left Flat.Node.top Flat.Node.highlighted
         Stage.Node.key Stage.Node.left Stage.Node.top Stage.Node.highlighted].
    repeat split.
    destruct (Flat.activeHighlight actions node f) as [a|] eqn:E;
      [|discriminate]. intros _.
    assert (Hx : exists a', Stage.activeAction actions node f = Some a').
    { apply Stage_activeAction_iff.
      assert (Hf : exists a', Flat.activeHighlight actions node f = Some a')
        by eauto.
      apply Flat_activeHighlight_iff in Hf.
      destruct Hf as (a' & Hin & Hty & Hrest). exists a'. tauto. }
    destruct Hx as [a' ->]. reflexivity.
Qed.

(** ** Which action decides, and how far the emphasis goes *)

Lemma find_app_some {A : Type} (p : A -> bool) (l1 l2 : list A) a :
  find p l1 = Some a -> find p (l1 ++ l2) = Some a.
Proof.
  induction l1 as [|b l1 IH]; simpl; [discriminate|].
  destruct (p b); [trivial|assumption].
Qed.

(** The first action that targets a node and has the frame in its window
    decides the node's state: whatever follows it in [actions] changes
    nothing, in either renderer. *)
Theorem first_active_action_decides (data : SceneData.t)
    (before after : list DiagramAction.t) (f : Z) (w h fps : R)
    (node : DiagramNode.t) (i : Z) :
  (Flat.activeHighlight before node f <> None ->
   Flat.renderNode data (before ++ after) f w h fps node i
   = Flat.renderNode data before f w h fps node i)
  /\ (Stage.activeAction before node f <> None ->
      Stage.renderNode (before ++ after) f w h fps node i
      = Stage.renderNode before f w h fps node i).
Proof.
  split; intros H.
  - unfold Flat.renderNode.
    destruct (Flat.activeHighlight before node f) as [a|] eqn:E; [|congruence].
    unfold Flat.activeHighlight in *.
    now rewrite (find_app_some _ before after a E).
  - unfold Stage.renderNode.
    destruct (Stage.activeAction before node f) as [a|] eqn:E; [|congruence].
    unfold Stage.activeAction in *.
    now rewrite (find_app_some _ before after a E).
Qed.

Lemma first_active_action_decides_witness :
  Stage.renderNode
    ([soloHighlight]
     ++ [DiagramAction.mk pulse 0 10 None None (Some "api") None None])
    3 1080 1080 30 soloNode 0
  = Stage.renderNode [soloHighlight] 3 1080 1080 30 soloNode 0.
Proof.
  apply (proj2 (first_active_action_decides redisScene [soloHighlight]
                  [DiagramAction.mk pulse 0 10 None None (Some "api") None None]
                  3 1080 1080 30 soloNode 0)).
  simpl. discriminate.
Defined.

(** On the tilted stage an emphasised node is always larger than it would
    be without the emphasis: a highlight adds exactly 0.15 to the entrance
    scale, a pulse between 0.05 and 0.25; without an active action the scale
    is the entrance scale.  The action that emphasises a node is a highlight
    or a pulse. *)
Theorem stage_emphasis_bounds (actions : list DiagramAction.t)
    (f : Z) (w h fps : R) (node : DiagramNode.t) (i : Z) :
  let entrance := spring (f - i * 5) fps
                    (SpringConfig.mk (Some 100%R) (Some 12%R) None) in
  let scale := Stage.Node.scale (Stage.renderNode actions f w h fps node i) in
  (Stage.Node.highlighted (Stage.renderNode actions f w h fps node i) = true ->
   (entrance + 0.05 <= scale <= entrance + 0.25)%R)
  /\ (Stage.Node.highlighted (Stage.renderNode actions f w h fps node i) = false ->
      scale = entrance)
  /\ (forall a, Stage.activeAction actions node f = Some a ->
        Stage.Node.highlighted (Stage.renderNode actions f w h fps node i)
        = true
        /\ (DiagramAction.type a = highlight \/ DiagramAction.type a = pulse)
        /\ (DiagramAction.type a = highlight ->
            scale = (entrance + 0.15)%R)
        /\ (DiagramAction.type a = pulse ->
            scale
            = (entrance + 0.15
               + sin (IZR (f - DiagramAction.startDelay a) * 0.5) * 0.1)%R)).
Proof.
  intros entrance scale. subst scale. unfold Stage.renderNode.
  cbn [Stage.Node.scale Stage.Node.highlighted]. rewrite lerp_unit.
  fold entrance.
  destruct (Stage.activeAction actions node f) as [a|] eqn:E;
    (split; [|split]); try (intros H; discriminate H).
  - intros _. unfold Stage.pulseScale.
    destruct (actionType_eqb (DiagramAction.type a) pulse).
    + pose proof (SIN_bound (IZR (f - DiagramAction.startDelay a) * 0.5)).
      lra.
    + lra.
  - intros a0 Ha0. injection Ha0 as <-. split; [reflexivity|].
    apply find_some in E. destruct E as [_ E].
    unfold Stage.pulseScale. repeat apply conj.
    + destruct (DiagramAction.type a); cbn in E;
        first [discriminate E | now left | now right].
    + intros ->. cbn [actionType_eqb]. lra.
    + intros ->. cbn [actionType_eqb]. lra.
  - intros _. unfold Stage.pulseScale. lra.
  - intros a0 Ha0. discriminate Ha0.
Qed.

Lemma stage_emphasis_bounds_witness :
  (spring (3 - 0 * 5) 30 (SpringConfig.mk (Some 100%R) (Some 12%R) None) + 0.05
   <= Stage.Node.scale
        (Stage.renderNode [soloHighlight] 3 1080 1080 30 soloNode 0)
   <= spring (3 - 0 * 5) 30 (SpringConfig.mk (Some 100%R) (Some 12%R) None)
      + 0.25)%R.
Proof.
  apply (proj1 (stage_emphasis_bounds [soloHighlight] 3 1080 1080 30
                  soloNode 0)).
  reflexivity.
Defined.

(** The grid behind the stage moves by the frame modulo 80: from frame 0 on
    its offset stays within [[0, 80)] and repeats every 80 frames, so the
    80-pixel grid loops without a jump; a scene without configuration has
    no grid. *)
Theorem stage_grid_loops (data : SceneData.t) (canvas : Canvas.t) (f : Z) :
  (forall r, Stage.TechScene data (Hooks.mk f canvas) = Some r ->
     Stage.Render.gridOffset r = Z.rem f 80
     /\ -80 < Stage.Render.gridOffset r < 80
     /\ (0 <= f ->
         0 <= Stage.Render.gridOffset r < 80
         /\ option_map Stage.Render.gridOffset
              (Stage.TechScene data (Hooks.mk (f + 80) canvas))
            = Some (Stage.Render.gridOffset r)))
  /\ (SceneData.diagramConfig data = None ->
      Stage.TechScene data (Hooks.mk f canvas) = None).
Proof.
  split.
  - intros r Hr. unfold Stage.TechScene in *.
    destruct (SceneData.diagramConfig data) as [c|]; [|discriminate].
    inversion Hr; subst r. cbn [Stage.Render.gridOffset option_map
      Hooks.useCurrentFrame].
    assert (Hb : -80 < Z.rem f 80 < 80).
    { destruct (Z_le_gt_dec 0 f) as [Hf|Hf].
      - pose proof (Z.rem_bound_pos f 80 Hf ltac:(lia)). lia.
      - pose proof (Z.rem_bound_pos_neg f 80 ltac:(lia) ltac:(lia)). lia. }
    split; [reflexivity|]. split; [exact Hb|].
    intros Hf. pose proof (Z.rem_bound_pos f 80 Hf ltac:(lia)) as Hp.
    split; [exact Hp|].
    f_equal. rewrite !Z.rem_mod_nonneg by lia.
    replace (f + 80) with (f + 1 * 80) by lia. apply Z.mod_add. lia.
  - intros H. unfold Stage.TechScene. now rewrite H.
Qed.

Lemma stage_grid_loops_witness :
  option_map Stage.Render.gridOffset
    (Stage.TechScene redisScene (Hooks.mk (100 + 80) (playerCanvas INITIAL_DATA)))
  = Some 20.
Proof.
  destruct (Stage.TechScene redisScene (Hooks.mk 100 (playerCanvas INITIAL_DATA)))
    as [r|] eqn:E; [|discriminate].
  destruct (proj1 (stage_grid_loops redisScene (playerCanvas INITIAL_DATA) 100)
              r E) as (Hr & _ & Hnn).
  destruct (Hnn ltac:(lia)) as [_ ->]. rewrite Hr. reflexivity.
Defined.

(** ** Anchors, and the way of a packet *)

Lemma findNode_some nodes ref n :
  findNode nodes ref = Some n -> In n nodes /\ ref = Some (DiagramNode.id n).
Proof.
  intros H. unfold findNode in H. apply find_some in H.
  destruct H as [Hin Hp]. now rewrite opt_eqb_eq in Hp.
Qed.

Lemma In_mapi_from {A B : Type} (f : A -> Z -> B) (l : list A) a : forall i,
  In a l -> exists j, In (f a j) (mapi_from f i l).
Proof.
  induction l as [|b l IH]; intros i Hin; [contradiction|].
  destruct Hin as [<-|Hin].
  - exists i. now left.
  - destruct (IH (i + 1) Hin) as [j Hj]. exists j. now right.
Qed.

Lemma lerp_ends a b : lerp 0 a b = a /\ lerp 1 a b = b.
Proof. unfold lerp. split; lra. Qed.

(** Edges and packets meet the nodes where the nodes are drawn: a rendered
    edge runs between the anchors of two rendered nodes whose keys are its
    [fromId] and [toId]; a packet of positive duration sits on the anchor of
    the node keyed by its [fromId] at frame [startDelay] and on the anchor
    of the node keyed by its [toId] at frame [startDelay + duration]. *)
Theorem anchors_coincide (data : SceneData.t) (nodes : list DiagramNode.t)
    (actions : list DiagramAction.t) (f : Z) (w h fps : R) (i : Z) :
  (forall edge e, Flat.renderEdge data nodes f w h fps edge i = Some e ->
     exists a b,
       In a (mapi (Flat.renderNode data actions f w h fps) nodes)
       /\ In b (mapi (Flat.renderNode data actions f w h fps) nodes)
       /\ Flat.Node.key a = DiagramEdge.fromId edge
       /\ Flat.Node.key b = DiagramEdge.toId edge
       /\ Flat.Edge.x1 e = Flat.Node.left a /\ Flat.Edge.y1 e = Flat.Node.top a
       /\ Flat.Edge.x2 e = Flat.Node.left b /\ Flat.Edge.y2 e = Flat.Node.top b)
  /\ (forall edge e, Stage.renderEdge data nodes f w h fps edge i = Some e ->
        exists a b,
          In a (mapi (Stage.renderNode actions f w h fps) nodes)
          /\ In b (mapi (Stage.renderNode actions f w h fps) nodes)
          /\ Stage.Node.key a = DiagramEdge.fromId edge
          /\ Stage.Node.key b = DiagramEdge.toId edge
          /\ Stage.Edge.x1 e = Stage.Node.left a
          /\ Stage.Edge.y1 e = Stage.Node.top a
          /\ Stage.Edge.x2 e = Stage.Node.left b
          /\ Stage.Edge.y2 e = Stage.Node.top b)
  /\ (forall action,
        DiagramAction.type action = packet ->
        truthy (DiagramAction.fromId action) = true ->
        truthy (DiagramAction.toId action) = true ->
        findNode nodes (DiagramAction.fromId action) <> None ->
        findNode nodes (DiagramAction.toId action) <> None ->
        0 < DiagramAction.duration action ->
        let sd := DiagramAction.startDelay action in
        let dur := DiagramAction.duration action in
        exists a b,
          In a (mapi (Stage.renderNode actions f w h fps) nodes)
          /\ In b (mapi (Stage.renderNode actions f w h fps) nodes)
          /\ DiagramAction.fromId action = Some (Stage.Node.key a)
          /\ DiagramAction.toId action = Some (Stage.Node.key b)
          /\ Stage_packetAt (Stage.renderPacket nodes sd w h action i)
             = Some (Some (Stage.Node.left a), Some (Stage.Node.top a))
          /\ Stage_packetAt (Stage.renderPacket nodes (sd + dur) w h action i)
             = Some (Some (Stage.Node.left b), Some (Stage.Node.top b))
          /\ Flat_packetAt (Flat.renderAction nodes sd w h fps action i)
             = Some (Some (Stage.Node.left a), Some (Stage.Node.top a))
          /\ Flat_packetAt (Flat.renderAction nodes (sd + dur) w h fps action i)
             = Some (Some (Stage.Node.left b), Some (Stage.Node.top b))).
Proof.
  repeat apply conj.
  - intros edge e H. unfold Flat.renderEdge in H.
    destruct (findNode nodes (Some (DiagramEdge.fromId edge))) as [n1|] eqn:E1;
      [|discriminate].
    destruct (findNode nodes (Some (DiagramEdge.toId edge))) as [n2|] eqn:E2;
      [|discriminate].
    inversion H; subst e. clear H.
    apply findNode_some in E1, E2. destruct E1 as [I1 K1], E2 as [I2 K2].
    destruct (In_mapi_from (Flat.renderNode data actions f w h fps) nodes n1 0 I1)
      as [j1 J1].
    destruct (In_mapi_from (Flat.renderNode data actions f w h fps) nodes n2 0 I2)
      as [j2 J2].
    eexists; eexists. split; [exact J1|]. split; [exact J2|].
    cbn. inversion K1. inversion K2. repeat split.
  - intros edge e H. unfold Stage.renderEdge in H.
    destruct (findNode nodes (Some (DiagramEdge.fromId edge))) as [n1|] eqn:E1;
      [|discriminate].
    destruct (findNode nodes (Some (DiagramEdge.toId edge))) as [n2|] eqn:E2;
      [|discriminate].
    inversion H; subst e. clear H.
    apply findNode_some in E1, E2. destruct E1 as [I1 K1], E2 as [I2 K2].
    destruct (In_mapi_from (Stage.renderNode actions f w h fps) nodes n1 0 I1)
      as [j1 J1].
    destruct (In_mapi_from (Stage.renderNode actions f w h fps) nodes n2 0 I2)
      as [j2 J2].
    eexists; eexists. split; [exact J1|]. split; [exact J2|].
    cbn. inversion K1. inversion K2. repeat split.
  - intros action Hty Hfrom Hto Rfrom Rto Hd sd dur.
    destruct (findNode nodes (DiagramAction.fromId action)) as [n1|] eqn:E1;
      [|congruence].
    destruct (findNode nodes (DiagramAction.toId action)) as [n2|] eqn:E2;
      [|congruence].
    destruct (packet_in_flight nodes action sd w h fps i n1 n2
                Hty Hfrom Hto E1 E2 Hd ltac:(subst sd; lia)) as [F0 S0].
    destruct (packet_in_flight nodes action (sd + dur) w h fps i n1 n2
                Hty Hfrom Hto E1 E2 Hd ltac:(subst sd dur; lia)) as [F1 S1].
    cbv zeta in F0, S0, F1, S1. fold sd dur in F0, S0, F1, S1.
    replace (IZR (sd - sd) / IZR dur)%R with 0%R in F0, S0
      by (replace (sd - sd) with 0 by lia; unfold Rdiv; lra).
    replace (IZR (sd + dur - sd) / IZR dur)%R with 1%R in F1, S1.
    2:{ replace (sd + dur - sd) with dur by lia.
        assert (0 < IZR dur)%R by (apply IZR_lt; subst dur; lia).
        field. lra. }
    destruct (lerp_ends (DiagramNode.x n1) (DiagramNode.x n2)) as [X0 X1].
    destruct (lerp_ends (DiagramNode.y n1) (DiagramNode.y n2)) as [Y0 Y1].
    rewrite X0, Y0 in F0, S0. rewrite X1, Y1 in F1, S1.
    apply findNode_some in E1, E2. destruct E1 as [I1 K1], E2 as [I2 K2].
    destruct (In_mapi_from (Stage.renderNode actions f w h fps) nodes n1 0 I1)
      as [j1 J1].
    destruct (In_mapi_from (Stage.renderNode actions f w h fps) nodes n2 0 I2)
      as [j2 J2].
    eexists; eexists. split; [exact J1|]. split; [exact J2|].
    rewrite F0, F1, S0, S1. cbn. repeat split; assumption.
Qed.

Lemma anchors_coincide_witness :
  exists a b,
    In a (mapi (Stage.renderNode redisActions 12 1080 1080 30) redisNodes)
    /\ In b (mapi (Stage.renderNode redisActions 12 1080 1080 30) redisNodes)
    /\ Stage.Node.key a = "clientB" /\ Stage.Node.key b = "redis"
    /\ toPx 80 1080 = Stage.Node.left a.
Proof.
  destruct (proj1 (proj2 (anchors_coincide redisScene redisNodes redisActions
                            12 1080 1080 30 1))
              (DiagramEdge.mk "clientB" "redis" None None)
              (Stage.Edge.mk (toPx 80 1080) (toPx 80 1080) (toPx 50 1080)
                 (toPx 50 1080)
                 (lerp (spring (12 - 1 * 3) 30
                          (SpringConfig.mk (Some 50%R) None None)) 0 0.4)
                 "#e2e8f0" None) eq_refl)
    as (a & b & Ha & Hb & Ka & Kb & X1 & _).
  exists a, b. cbn in *. repeat split; assumption.
Defined.

(** While it is on its way, a packet of positive duration moves by the same
    step every frame, one [duration]-th of the way from anchor to anchor,
    and never leaves the stretch between the two anchors; both renderers
    put it at the same place. *)
Theorem packet_moves_steadily (nodes : list DiagramNode.t)
    (action : DiagramAction.t) (f : Z) (w h fps : R) (i : Z)
    (from to : DiagramNode.t)
    (Htype : DiagramAction.type action = packet)
    (Hfrom : truthy (DiagramAction.fromId action) = true)
    (Hto : truthy (DiagramAction.toId action) = true)
    (Rfrom : findNode nodes (DiagramAction.fromId action) = Some from)
    (Rto : findNode nodes (DiagramAction.toId action) = Some to)
    (Hd : 0 < DiagramAction.duration action)
    (Hw : DiagramAction.startDelay action <= f
          < DiagramAction.startDelay action + DiagramAction.duration action) :
  let startX := toPx (DiagramNode.x from) w in
  let startY := toPx (DiagramNode.y from) h in
  let endX := toPx (DiagramNode.x to) w in
  let endY := toPx (DiagramNode.y to) h in
  exists x y x' y',
    Flat_packetAt (Flat.renderAction nodes f w h fps action i)
    = Some (Some x, Some y)
    /\ Stage_packetAt (Stage.renderPacket nodes f w h action i)
       = Some (Some x, Some y)
    /\ Flat_packetAt (Flat.renderAction nodes (f + 1) w h fps action i)
       = Some (Some x', Some y')
    /\ Stage_packetAt (Stage.renderPacket nodes (f + 1) w h action i)
       = Some (Some x', Some y')
    /\ (x' - x = (endX - startX) / IZR (DiagramAction.duration action))%R
    /\ (y' - y = (endY - startY) / IZR (DiagramAction.duration action))%R
    /\ (Rmin startX endX <= x <= Rmax startX endX)%R
    /\ (Rmin startY endY <= y <= Rmax startY endY)%R.
Proof.
  intros startX startY endX endY.
  destruct (packet_in_flight nodes action f w h fps i from to
              Htype Hfrom Hto Rfrom Rto Hd ltac:(lia)) as [F0 S0].
  destruct (packet_in_flight nodes action (f + 1) w h fps i from to
              Htype Hfrom Hto Rfrom Rto Hd ltac:(lia)) as [F1 S1].
  cbv zeta in F0, S0, F1, S1.
  set (sd := DiagramAction.startDelay action) in *.
  set (dur := DiagramAction.duration action) in *.
  assert (Hdur : (0 < IZR dur)%R) by (apply IZR_lt; assumption).
  destruct (progress_in_window f sd dur Hd ltac:(lia)) as [P0 P1].
  replace (IZR (f + 1 - sd)) with (IZR (f - sd) + 1)%R in F1, S1
    by (rewrite <- plus_IZR; f_equal; lia).
  set (p := (IZR (f - sd) / IZR dur)%R) in *.
  do 4 eexists.
  rewrite F0, S0, F1, S1. cbn [Flat_packetAt Stage_packetAt option_map
    Stage.Packet.left Stage.Packet.top].
  repeat split; try reflexivity.
  - unfold toPx, lerp, endX, startX, toPx. fold p. unfold p. field. lra.
  - unfold toPx, lerp, endY, startY, toPx. fold p. unfold p. field. lra.
  - rewrite <- toPx_lerp. fold startX endX. unfold lerp.
    unfold Rmin. destruct (Rle_dec startX endX); nra.
  - rewrite <- toPx_lerp. fold startX endX. unfold lerp.
    unfold Rmax. destruct (Rle_dec startX endX); nra.
  - rewrite <- toPx_lerp. fold startY endY. unfold lerp.
    unfold Rmin. destruct (Rle_dec startY endY); nra.
  - rewrite <- toPx_lerp. fold startY endY. unfold lerp.
    unfold Rmax. destruct (Rle_dec startY endY); nra.
Qed.

Lemma packet_moves_steadily_witness :
  exists x y x' y',
    Flat_packetAt
      (Flat.renderAction redisNodes 44 1080 1080 30
         (DiagramAction.mk packet 30 40 (Some "clientA") (Some "redis") None
            (Some "SETNX") (Some "#3b82f6")) 0)
    = Some (Some x, Some y)
    /\ Flat_packetAt
         (Flat.renderAction redisNodes (44 + 1) 1080 1080 30
            (DiagramAction.mk packet 30 40 (Some "clientA") (Some "redis") None
               (Some "SETNX") (Some "#3b82f6")) 0)
       = Some (Some x', Some y')
    /\ (y' - y = (toPx 50 1080 - toPx 15 1080) / IZR 40)%R.
Proof.
  destruct (packet_moves_steadily redisNodes
              (DiagramAction.mk packet 30 40 (Some "clientA") (Some "redis")
                 None (Some "SETNX") (Some "#3b82f6"))
              44 1080 1080 30 0
              (DiagramNode.mk "clientA" client "Client A" 50 15 (Some "#3b82f6"))
              (DiagramNode.mk "redis" database "Redis Master" 50 50
                 (Some "#ef4444"))
              eq_refl eq_refl eq_refl eq_refl eq_refl
              ltac:(simpl; lia) ltac:(simpl; lia))
    as (x & y & x' & y' & F0 & _ & F1 & _ & _ & Hy & _).
  exists x, y, x', y'. repeat split; assumption.
Defined.

(** ** The cascade of entrances *)

(** Nothing shows before its turn.  With the spring at rest for frames up
    to 0: node [i] of the flat renderer has scale 0 up to frame [10 * i],
    highlighted or not; node [i] of the stage has scale 0 up to frame
    [5 * i] unless an action emphasises it; a rendered edge [i] is fully
    transparent up to frame [5 * i] (flat) or [3 * i] (stage); and a label
    starts from scale 0 at its [startDelay]. *)
Theorem entrances_cascade (data : SceneData.t) (nodes : list DiagramNode.t)
    (actions : list DiagramAction.t) (f : Z) (w h fps : R) (i : Z) :
  (forall node, f <= 10 * i ->
     Flat.Node.scale (Flat.renderNode data actions f w h fps node i) = 0%R)
  /\ (forall node, f <= 5 * i ->
        Stage.Node.highlighted (Stage.renderNode actions f w h fps node i)
        = false ->
        Stage.Node.scale (Stage.renderNode actions f w h fps node i) = 0%R)
  /\ (forall edge e, f <= 5 * i ->
        Flat.renderEdge data nodes f w h fps edge i = Some e ->
        Flat.Edge.opacity e = 0%R)
  /\ (forall edge e, f <= 3 * i ->
        Stage.renderEdge data nodes f w h fps edge i = Some e ->
        Stage.Edge.opacity e = 0%R)
  /\ (forall action x y s c t,
        Flat.renderAction nodes (DiagramAction.startDelay action) w h fps
          action i = Some (Flat.Effect.Label x y s c t) ->
        s = 0%R)
  /\ (forall action p,
        Stage.renderPopup nodes (DiagramAction.startDelay action) w h fps
          action i = Some p ->
        Stage.Popup.scale p = 0%R).
Proof.
  repeat apply conj.
  - intros node Hf. unfold Flat.renderNode. cbn [Flat.Node.scale].
    rewrite spring_rest by lia. unfold lerp.
    destruct (Flat.activeHighlight actions node f); lra.
  - intros node Hf Hh. unfold Stage.renderNode in *.
    cbn [Stage.Node.scale Stage.Node.highlighted] in *.
    rewrite spring_rest by lia.
    destruct (Stage.activeAction actions node f); [discriminate|].
    unfold lerp, Stage.pulseScale. lra.
  - intros edge e Hf H. unfold Flat.renderEdge in H.
    destruct (findNode nodes (Some (DiagramEdge.fromId edge))); [|discriminate].
    destruct (findNode nodes (Some (DiagramEdge.toId edge))); [|discriminate].
    inversion H; subst e. cbn [Flat.Edge.opacity].
    rewrite spring_rest by lia. unfold lerp. lra.
  - intros edge e Hf H. unfold Stage.renderEdge in H.
    destruct (findNode nodes (Some (DiagramEdge.fromId edge))); [|discriminate].
    destruct (findNode nodes (Some (DiagramEdge.toId edge))); [|discriminate].
    inversion H; subst e. cbn [Stage.Edge.opacity].
    rewrite spring_rest by lia. unfold lerp. lra.
  - intros action x y s c t H. unfold Flat.renderAction in H. cbv zeta in H.
    rewrite Z.sub_diag in H.
    rewrite (spring_rest 0) in H by lia.
    repeat match type of H with
           | context [if ?b then _ else _] => destruct b
           | context [match findNode ?n ?r with _ => _ end] =>
               destruct (findNode n r)
           end; try discriminate; inversion H; reflexivity.
  - intros action p H. unfold Stage.renderPopup in H. cbv zeta in H.
    rewrite Z.sub_diag in H.
    rewrite (spring_rest 0) in H by lia.
    repeat match type of H with
           | context [if ?b then _ else _] => destruct b
           | context [match findNode ?n ?r with _ => _ end] =>
               destruct (findNode n r)
           end; try discriminate; inversion H; reflexivity.
Qed.

Lemma entrances_cascade_witness :
  Flat.Node.scale
    (Flat.renderNode redisScene redisActions 30 1080 1080 30
       (DiagramNode.mk "clientC" client "Client C" 20 80 (Some "#a855f7")) 3)
  = 0%R.
Proof.
  apply (proj1 (entrances_cascade redisScene redisNodes redisActions 30
                  1080 1080 30 3)).
  lia.
Defined.

(** ** The standard layout *)

(** A standard scene of more than 20 frames fades in and out, with
    [interpolate] the linear interpolation through the breakpoints: its
    opacity rises from 0 at frame 0 to 1 at frame 10, stays 1 up to frame
    [durationInFrames - 10] and falls to 0 at frame [durationInFrames];
    inside the scene it lies within [[0, 1]]. *)
Theorem standard_scene_fades
    (T : Type) (TechScene : SceneData.t -> Hooks.t -> option T)
    (data : SceneData.t) (canvas : Canvas.t) (f : Z)
    (Htype : SceneData.type data <> tech_diagram)
    (Hd : 20 < SceneData.durationInFrames data) :
  let d := SceneData.durationInFrames data in
  exists r opacity,
    Scene TechScene data (Hooks.mk f canvas) = SceneRender.Layout r
    /\ Standard.opacity r = opacity
    /\ (0 <= f <= 10 -> opacity = (IZR f / 10)%R)
    /\ (10 <= f <= d - 10 -> opacity = 1%R)
    /\ (d - 10 <= f <= d -> opacity = (IZR (d - f) / 10)%R)
    /\ (f = 0 \/ f = d -> opacity = 0%R)
    /\ (0 <= f <= d -> (0 <= opacity <= 1)%R).
Proof.
  intros d. unfold Scene. rewrite (not_tech_diagram _ Htype).
  cbv zeta. cbn [Hooks.useCurrentFrame]. fold d.
  rewrite trapezoid by assumption.
  eexists. eexists. split; [reflexivity|].
  cbn [Standard.opacity]. split; [reflexivity|].
  assert (Hsub : IZR (d - f) = (IZR d - IZR f)%R) by apply minus_IZR.
  assert (Hcase : forall o : R,
            ((f <= 10 -> o = (IZR f / 10)%R)
             /\ (10 < f <= d - 10 -> o = 1%R)
             /\ (d - 10 < f -> o = (IZR (d - f) / 10)%R)) ->
            (0 <= f <= 10 -> o = (IZR f / 10)%R)
            /\ (10 <= f <= d - 10 -> o = 1%R)
            /\ (d - 10 <= f <= d -> o = (IZR (d - f) / 10)%R)
            /\ (f = 0 \/ f = d -> o = 0%R)
            /\ (0 <= f <= d -> (0 <= o <= 1)%R)).
  { intros o (A & B & C). repeat apply conj.
    - intros Hf. apply A. lia.
    - intros Hf. destruct (Z.eq_dec f 10) as [->|N].
      + rewrite A by lia. lra.
      + apply B. lia.
    - intros Hf. destruct (Z.eq_dec f (d - 10)) as [E|N].
      + rewrite B by (subst d; lia). rewrite E.
        replace (d - (d - 10)) with 10 by lia. lra.
      + apply C. lia.
    - intros [-> | ->].
      + rewrite A by lia. lra.
      + rewrite C by (subst d; lia). replace (d - d) with 0 by lia. lra.
    - intros Hf.
      destruct (Z_le_gt_dec f 10) as [L|L];
        [|destruct (Z_le_gt_dec f (d - 10)) as [M|M]].
      + rewrite A by lia.
        assert (0 <= IZR f)%R by (apply IZR_le; lia).
        assert (IZR f <= 10)%R by (apply IZR_le; lia). lra.
      + rewrite B by lia. lra.
      + rewrite C by lia.
        assert (0 <= IZR (d - f))%R by (apply IZR_le; lia).
        assert (IZR (d - f) <= 10)%R by (apply IZR_le; lia). lra. }
  apply Hcase. repeat apply conj; intros Hf.
  - replace (f <=? 10) with true by (symmetry; apply Z.leb_le; lia).
    reflexivity.
  - replace (f <=? 10) with false by (symmetry; apply Z.leb_gt; lia).
    replace (f <=? d - 10) with true by (symmetry; apply Z.leb_le; lia).
    reflexivity.
  - replace (f <=? 10) with false
      by (symmetry; apply Z.leb_gt; subst d; lia).
    replace (f <=? d - 10) with false by (symmetry; apply Z.leb_gt; lia).
    reflexivity.
Qed.

Lemma standard_scene_fades_witness :
  exists r opacity,
    Scene Flat.TechScene (plainScene quote 90)
      (Hooks.mk 5 (playerCanvas INITIAL_DATA)) = SceneRender.Layout r
    /\ Standard.opacity r = opacity
    /\ (0 <= 5 <= 10 -> opacity = (IZR 5 / 10)%R).
Proof.
  destruct (standard_scene_fades _ Flat.TechScene (plainScene quote 90)
              (playerCanvas INITIAL_DATA) 5
              ltac:(simpl; discriminate) ltac:(simpl; lia))
    as (r & o & H1 & H2 & H3 & _).
  exists r, o. repeat split; assumption.
Defined.

(** The progress bar of a standard scene of more than 20 frames is empty at
    the scene's first frame, strictly wider at every later frame, and stays
    below full width inside the scene: at the last frame,
    [durationInFrames - 1], it is [100 / durationInFrames] percent short.  A
    standard scene of 20 frames or fewer draws no bar at all: its render
    fails at every frame. *)
Theorem progress_bar_grows
    (T : Type) (TechScene : SceneData.t -> Hooks.t -> option T)
    (data : SceneData.t) (canvas : Canvas.t)
    (Htype : SceneData.type data <> tech_diagram) :
  let d := SceneData.durationInFrames data in
  (20 < d ->
   forall f, exists r width,
     Scene TechScene data (Hooks.mk f canvas) = SceneRender.Layout r
     /\ Standard.progressWidth r = width
     /\ width = (IZR f / IZR d * 100)%R
     /\ (f = 0 -> width = 0%R)
     /\ (f = d - 1 -> width = (100 - 100 / IZR d)%R)
     /\ (0 <= f < d -> (0 <= width < 100)%R)
     /\ (forall f' r', f < f' ->
           Scene TechScene data (Hooks.mk f' canvas) = SceneRender.Layout r' ->
           (width < Standard.progressWidth r')%R))
  /\ (d <= 20 ->
      forall f, Scene TechScene data (Hooks.mk f canvas) = SceneRender.Throws).
Proof.
  intros d. split.
  - intros Hd f. unfold Scene. rewrite (not_tech_diagram _ Htype). cbv zeta.
    cbn [Hooks.useCurrentFrame]. fold d. rewrite trapezoid by assumption.
    assert (HD : (0 < IZR d)%R) by (apply IZR_lt; lia).
    eexists. eexists. split; [reflexivity|]. cbn [Standard.progressWidth].
    split; [reflexivity|]. split; [reflexivity|].
    repeat apply conj.
    + intros ->. unfold Rdiv. lra.
    + intros ->. rewrite minus_IZR. field. lra.
    + intros Hf.
      assert (0 <= IZR f)%R by (apply IZR_le; lia).
      assert (IZR f < IZR d)%R by (apply IZR_lt; lia).
      assert (0 <= IZR f / IZR d < 1)%R.
      { split.
        - apply Rmult_le_reg_r with (IZR d); [assumption|].
          unfold Rdiv. rewrite Rmult_assoc, Rinv_l by lra. lra.
        - apply Rmult_lt_reg_r with (IZR d); [assumption|].
          unfold Rdiv. rewrite Rmult_assoc, Rinv_l by lra. lra. }
      lra.
    + intros f' r' Hlt Hr'. rewrite trapezoid in Hr' by assumption.
      inversion Hr'; subst r'. cbn [Standard.progressWidth].
      assert (IZR f < IZR f')%R by (apply IZR_lt; lia).
      assert (IZR f / IZR d < IZR f' / IZR d)%R.
      { unfold Rdiv. apply Rmult_lt_compat_r; [|assumption].
        now apply Rinv_0_lt_compat. }
      lra.
  - intros Hd f. now apply Scene_throws.
Qed.

Lemma progress_bar_grows_witness :
  exists r width,
    Scene Stage.TechScene (plainScene outro 45)
      (Hooks.mk 44 (playerCanvas INITIAL_DATA)) = SceneRender.Layout r
    /\ Standard.progressWidth r = width
    /\ width = (100 - 100 / IZR 45)%R.
Proof.
  destruct (proj1 (progress_bar_grows _ Stage.TechScene (plainScene outro 45)
                     (playerCanvas INITIAL_DATA) ltac:(simpl; discriminate))
              ltac:(simpl; lia) 44)
    as (r & width & H1 & H2 & _ & _ & H5 & _).
  exists r, width. repeat split; try assumption. now apply H5.
Defined.

(** ** From the service's answer to the form *)

(** What the service rejects reaches the user: when the model's answer is
    empty, a submit with a topic that is not blank ends with the error
    "No response from Gemini" shown, the generating flag down and the video
    that was playing still in place, whatever the parser or the pass. *)
Theorem empty_answer_is_reported
    (pass : SceneData.t -> SceneData.t)
    (JSON_parse : string -> GeminiResponse.t + string)
    (answer : string -> Z -> option string) (st : FormState.t)
    (Htopic : isBlank (FormState.topic st) = false)
    (Hempty : truthy (answer (FormState.topic st) (FormState.duration st))
              = false) :
  let st' := handleSubmit
               (fun topic durationSeconds =>
                  finishScript pass JSON_parse (answer topic durationSeconds))
               st in
  FormState.error st' = Some "No response from Gemini"
  /\ FormState.videoData st' = FormState.videoData st
  /\ FormState.isGenerating st' = false.
Proof.
  intros st'. subst st'. unfold handleSubmit, finishScript.
  rewrite Htopic, Hempty. cbn. repeat split.
Qed.

Lemma empty_answer_is_reported_witness :
  FormState.error
    (handleSubmit
       (fun topic durationSeconds =>
          finishScript downgradeScene (fun _ => inr "Unexpected end of input")
            None)
       (FormState.mk "How HTTPS works" None ratio_9_16 30 INITIAL_DATA false))
  = Some "No response from Gemini".
Proof.
  apply (empty_answer_is_reported downgradeScene
           (fun _ => inr "Unexpected end of input") (fun _ _ => None)
           (FormState.mk "How HTTPS works" None ratio_9_16 30 INITIAL_DATA
              false));
    reflexivity.
Defined.

(** ** Instances of the statements above that carry a condition *)

Lemma timeline_contiguous_witness :
  exists p q,
    nth_error (fst (placeScenes [plainScene intro 30; redisScene] 0 0)) 0
    = Some p /\
    nth_error (fst (placeScenes [plainScene intro 30; redisScene] 0 0)) 1
    = Some q /\
    SequenceProps.from q
    = SequenceProps.from p + SequenceProps.durationInFrames p.
Proof.
  eexists. eexists.
  split; [reflexivity|]. split; [reflexivity|].
  apply (proj1 (proj2 (timeline_contiguous [plainScene intro 30; redisScene]))
           O); reflexivity.
Defined.

Lemma form_canvas_has_ratio_witness :
  isLandscapeOrSquare
    (buildVideoConfig "Queues" ratio_16_9 (GeminiResponse.mk [redisScene] "Calm"))
  = true.
Proof.
  apply (proj1 (proj2 (form_canvas_has_ratio "Queues" ratio_16_9
                         (GeminiResponse.mk [redisScene] "Calm")))).
  discriminate.
Defined.

Lemma renderers_agree_witness :
  Stage.Node.highlighted
    (Stage.renderNode [soloHighlight] 4 1080 1080 30 soloNode 0) = true.
Proof.
  apply (proj2 (proj2 (proj2 (proj2 (proj2
           (renderers_agree redisScene [soloNode] [soloHighlight] 4
              1080 1080 30 0)) soloNode)))).
  reflexivity.
Defined.
